(** * demohash: a Streamlit hashing demo (app.py) over the hash_utils core

    The development embeds the script [app.py] as pure functions over an
    explicit record of widget values and the secret store, and the core
    operations it imports from [hash_utils] as functions returning a
    result or an error kind. *)

From Stdlib Require Import NArith List Ascii String Lia Bool.
From Stdlib.Strings Require Import Byte.
From stdpp Require Import base option list strings gmap.

Local Open Scope N_scope.

(** ** Python values *)

Module Py.

(** A [str] is a sequence of code points, a [bytes] a sequence of bytes. *)
Abbreviation str := (list N).
Abbreviation bytes := (list byte).

(** An ASCII literal as a [str]. *)
Definition lit (s : string) : str :=
  map N_of_ascii (list_ascii_of_string s).

Definition byte_of_N (n : N) : byte :=
  match Byte.of_N (n mod 256) with
  | Some b => b
  | None => x00
  end.

(** Exceptions of the standard library that the script can meet. *)
Inductive exc : Type :=
| ValueError
| BinasciiError
| UnicodeEncodeError.

(** Truthiness of a [str]: non-empty. *)
Definition truthy (s : str) : bool :=
  match s with
  | [] => false
  | _ :: _ => true
  end.

(** [x or None] on a [str]. *)
Definition or_None (s : str) : option str :=
  if truthy s then Some s else None.

(** *** [str.strip()] *)

(** Whitespace in the sense of [str.isspace]. *)
Definition isspace (c : N) : bool :=
  ((9 <=? c) && (c <=? 13))
  || ((28 <=? c) && (c <=? 32))
  || (c =? 133) || (c =? 160) || (c =? 5760)
  || ((8192 <=? c) && (c <=? 8202))
  || (c =? 8232) || (c =? 8233) || (c =? 8239) || (c =? 8287)
  || (c =? 12288).

Fixpoint lstrip (s : str) : str :=
  match s with
  | [] => []
  | c :: r => if isspace c then lstrip r else s
  end.

Definition rstrip (s : str) : str := rev (lstrip (rev s)).

(** A string of whitespace only. *)
Definition blank (s : str) : Prop := forallb isspace s = true.

Definition strip (s : str) : str := rstrip (lstrip s).

(** *** [str.encode("utf-8")] *)

Definition utf8_char (c : N) : exc + bytes :=
  if c <? 128 then inr [byte_of_N c]
  else if c <? 2048 then
    inr [byte_of_N (N.lor 192 (N.shiftr c 6));
         byte_of_N (N.lor 128 (N.land c 63))]
  else if c <? 65536 then
    if (55296 <=? c) && (c <=? 57343) then inl UnicodeEncodeError
    else
      inr [byte_of_N (N.lor 224 (N.shiftr c 12));
           byte_of_N (N.lor 128 (N.land (N.shiftr c 6) 63));
           byte_of_N (N.lor 128 (N.land c 63))]
  else if c <? 1114112 then
    inr [byte_of_N (N.lor 240 (N.shiftr c 18));
         byte_of_N (N.lor 128 (N.land (N.shiftr c 12) 63));
         byte_of_N (N.lor 128 (N.land (N.shiftr c 6) 63));
         byte_of_N (N.lor 128 (N.land c 63))]
  else inl UnicodeEncodeError.

Fixpoint encode_utf8 (s : str) : exc + bytes :=
  match s with
  | [] => inr []
  | c :: r =>
    match utf8_char c with
    | inl e => inl e
    | inr bs =>
      match encode_utf8 r with
      | inl e => inl e
      | inr rest => inr (bs ++ rest)
      end
    end
  end.

(** *** [base64.b64decode] on a [str] (default, lenient mode) *)

(** A [str] argument is first encoded as ASCII. *)
Definition isascii (s : str) : bool := forallb (fun c => c <? 128) s.

(** Value of a character of the base64 alphabet. *)
Definition b64_value (c : N) : option N :=
  if (65 <=? c) && (c <=? 90) then Some (c - 65)
  else if (97 <=? c) && (c <=? 122) then Some (c - 71)
  else if (48 <=? c) && (c <=? 57) then Some (c + 4)
  else if c =? 43 then Some 62
  else if c =? 47 then Some 63
  else None.

(** The decoding loop: [quad_pos] is the position in the current group of
    four, [leftchar] the bits left over, [pads] the run of '=' seen. *)
Fixpoint a2b_base64 (data : str) (quad_pos : nat) (leftchar : N) (pads : nat)
  : exc + bytes :=
  match data with
  | [] =>
    match quad_pos with
    | O => inr []
    | _ => inl BinasciiError
    end
  | ch :: rest =>
    if ch =? 61 then
      if (2 <=? quad_pos)%nat then
        if (4 <=? quad_pos + S pads)%nat then inr []
        else a2b_base64 rest quad_pos leftchar (S pads)
      else a2b_base64 rest quad_pos leftchar pads
    else
      match b64_value ch with
      | None => a2b_base64 rest quad_pos leftchar pads
      | Some v =>
        match quad_pos with
        | 0%nat => a2b_base64 rest 1 v 0
        | 1%nat =>
          match a2b_base64 rest 2 (N.land v 15) 0 with
          | inl e => inl e
          | inr out =>
            inr (byte_of_N (N.lor (N.shiftl leftchar 2) (N.shiftr v 4)) :: out)
          end
        | 2%nat =>
          match a2b_base64 rest 3 (N.land v 3) 0 with
          | inl e => inl e
          | inr out =>
            inr (byte_of_N (N.lor (N.shiftl leftchar 4) (N.shiftr v 2)) :: out)
          end
        | _ =>
          match a2b_base64 rest 0 0 0 with
          | inl e => inl e
          | inr out =>
            inr (byte_of_N (N.lor (N.shiftl leftchar 6) v) :: out)
          end
        end
      end
  end.

Definition b64decode (s : str) : exc + bytes :=
  if isascii s then a2b_base64 s 0 0 0 else inl ValueError.

(** *** [bytes.hex()] *)

Definition hex_digit (n : N) : N :=
  if n <? 10 then 48 + n else 87 + n.

Definition hex_byte (b : byte) : str :=
  [hex_digit (Byte.to_N b / 16); hex_digit (Byte.to_N b mod 16)].

Fixpoint hex (bs : bytes) : str :=
  match bs with
  | [] => []
  | b :: r => hex_byte b ++ hex r
  end.

End Py.

(** ** The core operations of [hash_utils] *)

Module HashUtils.
Import Py.

(** Modelled from the spec: the error kinds of the core (section 7); the
    module [hash_utils] itself is not among the sources. [Raised] carries an
    exception of the runtime that the core does not catch. *)
Inductive failure : Type :=
| UnsupportedAlgorithm
| InvalidArgument
| IOError
| Raised (e : exc).

Abbreviation result A := (failure + A)%type.

Definition bind {A B} (r : result A) (k : A -> result B) : result B :=
  match r with
  | inl e => inl e
  | inr a => k a
  end.

Notation "'let*' x ':=' e 'in' k" := (bind e (fun x => k))
  (at level 10, x pattern, e at level 100, k at level 200).

Definition lift {A} (r : exc + A) : result A :=
  match r with
  | inl e => inl (Raised e)
  | inr a => inr a
  end.

(** Modelled from the spec: the closed set of algorithm identifiers
    (section 3) of the missing Algorithm Registry. *)
Inductive AlgorithmId : Type := sha1 | sha256 | sha512 | blake2b.

Definition alg_name (a : AlgorithmId) : str :=
  match a with
  | sha1 => lit "sha1"
  | sha256 => lit "sha256"
  | sha512 => lit "sha512"
  | blake2b => lit "blake2b"
  end.

Definition str_eqb (a b : str) : bool := bool_decide (a = b).

(** Modelled from the spec: [resolve] of the missing Algorithm Registry
    (section 4.1): fails with [UnsupportedAlgorithm] outside the closed set. *)
Definition resolve (id : str) : result AlgorithmId :=
  if str_eqb id (lit "sha1") then inr sha1
  else if str_eqb id (lit "sha256") then inr sha256
  else if str_eqb id (lit "sha512") then inr sha512
  else if str_eqb id (lit "blake2b") then inr blake2b
  else inl UnsupportedAlgorithm.

(** Modelled from the spec: [digest_size] of the missing Algorithm Registry,
    in bytes. *)
Definition digest_size (a : AlgorithmId) : nat :=
  match a with
  | sha1 => 20
  | sha256 => 32
  | sha512 => 64
  | blake2b => 64
  end.

(** Modelled from the spec: the block size that the HMAC construction of the
    missing MAC Module derives its padded keys from (section 4.5). *)
Definition block_size (a : AlgorithmId) : nat :=
  match a with
  | sha1 => 64
  | sha256 => 64
  | sha512 => 128
  | blake2b => 128
  end.

(** Modelled from the spec: the default chunk size and the default salt
    length of the missing module (section 3). *)
Definition CHUNK_SIZE : nat := N.to_nat 8192.
Definition DEFAULT_SALT_LEN : nat := 16.

(** Modelled from the spec: value of a hexadecimal digit, for the decoding
    of a caller-supplied salt (section 4.3). *)
Definition unhex_digit (c : N) : option N :=
  if (48 <=? c) && (c <=? 57) then Some (c - 48)
  else if (97 <=? c) && (c <=? 102) then Some (c - 87)
  else if (65 <=? c) && (c <=? 70) then Some (c - 55)
  else None.

(** Modelled from the spec: hexadecimal decoding, [InvalidArgument] on
    malformed input (section 4.3). *)
Fixpoint fromhex (s : str) : result bytes :=
  match s with
  | [] => inr []
  | [_] => inl InvalidArgument
  | hi :: lo :: r =>
    match unhex_digit hi, unhex_digit lo with
    | Some h, Some l =>
      let* rest := fromhex r in
      inr (byte_of_N (16 * h + l) :: rest)
    | _, _ => inl InvalidArgument
    end
  end.

Section Core.

(** The digest functions of the platform, one per algorithm. *)
Variable H : AlgorithmId -> bytes -> bytes.

(** Modelled from the spec: [hash_text] of the missing Digest Engine
    (section 4.2). *)
Definition hash_text (text alg : str) : result str :=
  let* a := resolve alg in
  let* data := lift (encode_utf8 text) in
  inr (hex (H a data)).

(** Modelled from the spec: the read loop of [hash_stream]: up to
    [chunk_size] bytes per read until the source is exhausted, each chunk
    fed to the incremental hash, whose state [acc] is what it was fed. *)
Fixpoint read_chunks (fuel chunk_size : nat) (src acc : bytes) : bytes :=
  match fuel with
  | O => acc
  | S fuel' =>
    match take chunk_size src with
    | [] => acc
    | chunk => read_chunks fuel' chunk_size (drop chunk_size src) (acc ++ chunk)
    end
  end.

(** Modelled from the spec: [hash_stream] of the missing Digest Engine
    (section 4.2), imported by the script as [hash_file_chunked], over an
    in-memory source. *)
Definition hash_file_chunked (src : bytes) (alg : str) (chunk_size : nat)
  : result str :=
  let* a := resolve alg in
  if (chunk_size =? 0)%nat then inl InvalidArgument
  else inr (hex (H a (read_chunks (S (length src)) chunk_size src []))).

(** Modelled from the spec: [generate_salt] of the missing Salt Module
    (section 4.3); [entropy] is what the secure random source delivers. *)
Definition generate_salt (entropy : nat -> byte) (length_bytes : nat)
  : result bytes :=
  if (4 <=? length_bytes)%nat && (length_bytes <=? 64)%nat
  then inr (map entropy (seq 0 length_bytes))
  else inl InvalidArgument.

(** Modelled from the spec: [normalize_salt] of the missing Salt Module
    (section 4.3). *)
Definition normalize_salt (entropy : nat -> byte) (input : option str)
  : result bytes :=
  match input with
  | None => generate_salt entropy DEFAULT_SALT_LEN
  | Some s => fromhex s
  end.

(** Modelled from the spec: [apply_salt] of the missing Salt Module
    (section 4.3): the salt is prepended to the encoded text. *)
Definition apply_salt (text : str) (salt : bytes) (a : AlgorithmId)
  : result (str * str) :=
  let* data := lift (encode_utf8 text) in
  inr (hex salt, hex (H a (salt ++ data))).

(** Modelled from the spec: the salting operation the script imports as
    [with_salt], [normalize_salt] followed by [apply_salt]. *)
Definition with_salt (entropy : nat -> byte) (text : str)
  (salt_hex : option str) (alg : str) : result (str * str) :=
  let* a := resolve alg in
  let* salt := normalize_salt entropy salt_hex in
  apply_salt text salt a.

(** Modelled from the spec: [apply_pepper] of the missing Pepper Module
    (section 4.4), imported by the script as [with_pepper]. *)
Definition with_pepper (text : str) (pepper : option str) (alg : str)
  : result str :=
  let* a := resolve alg in
  match pepper with
  | None => inl InvalidArgument
  | Some [] => inl InvalidArgument
  | Some p =>
    let* pb := lift (encode_utf8 p) in
    let* data := lift (encode_utf8 text) in
    inr (hex (H a (pb ++ data)))
  end.

(** Modelled from the spec: the padded keys of the HMAC construction
    (section 4.5), the block key xor-ed with a constant byte. *)
Definition xor_pad (pad : N) (key : bytes) : bytes :=
  map (fun b => byte_of_N (N.lxor (Byte.to_N b) pad)) key.

(** Modelled from the spec: the key of the HMAC construction (section
    4.5), hashed when longer than a block, then filled with zero bytes up to
    the block size. *)
Definition block_key (a : AlgorithmId) (key : bytes) : bytes :=
  let k := if (block_size a <? length key)%nat then H a key else key in
  k ++ replicate (block_size a - length k) x00.

(** Modelled from the spec: [hmac_text] of the missing MAC Module
    (section 4.5). *)
Definition hmac_text (text : str) (key : bytes) (alg : str) : result str :=
  let* a := resolve alg in
  match key with
  | [] => inl InvalidArgument
  | _ :: _ =>
    let* data := lift (encode_utf8 text) in
    let k := block_key a key in
    inr (hex (H a (xor_pad 92 k ++ H a (xor_pad 54 k ++ data))))
  end.

End Core.

(** Modelled from the spec: the accumulation of [compare_hashes] of the
    missing Comparator (section 4.6): every position is visited, the
    differences are or-ed together. *)
Fixpoint diff_acc (acc : N) (a b : str) : N :=
  match a, b with
  | x :: a', y :: b' => diff_acc (N.lor acc (N.lxor x y)) a' b'
  | _, _ => acc
  end.

(** Modelled from the spec: [compare_hashes] of the missing Comparator
    (section 4.6): differing lengths short-circuit, equal lengths are
    compared without regard to where they first differ. *)
Definition compare_hashes (a b : str) : bool :=
  if (length a =? length b)%nat then diff_acc 0 a b =? 0 else false.

End HashUtils.

(** ** The script [app.py] *)

Module App.
Import Py HashUtils.

(** An uploaded file: its name and its content; [size] is what the
    uploader reports. *)
Record upload : Type := { name : str; content : bytes }.

Definition size (u : upload) : nat := length (content u).

(** What one run of the script reads: the secret store and the value of
    every widget. *)
Record inputs : Type := {
  secrets : gmap string str;
  pepper_demo_input : str;
  hmac_key_demo_input : str;
  alg_choice : nat;
  text_input : str;
  uploaded : option upload;
  salt_len : N;
  salt_text : str;
  h1 : str;
  h2 : str
}.

(** The buttons of the page; at most one is pressed in a run. *)
Inductive button : Type :=
| BtnHashText
| BtnCopy
| BtnHashFile
| BtnSalt
| BtnPepper
| BtnHmac
| BtnCompare
| BtnCsv.

(** The calls the script makes into the core. *)
Inductive call : Type :=
| CallHashText (text alg : str)
| CallHashFile (src : bytes) (alg : str) (chunk_size : nat)
| CallWithSalt (text : str) (salt_hex : option str) (alg : str)
| CallWithPepper (text pepper alg : str)
| CallHmac (text : str) (key : bytes) (alg : str)
| CallCompare (a b : str).

(** What a run does for the pressed button: it stops on an uncaught
    exception, shows a message, or reaches a core call. *)
Inductive step (A : Type) : Type :=
| Abort (e : exc)
| Idle
| Warn (msg : string)
| Err (msg : string)
| Note (msg : string)
| Invoke (c : A).

Arguments Abort {A} e.
Arguments Idle {A}.
Arguments Warn {A} msg.
Arguments Err {A} msg.
Arguments Note {A} msg.
Arguments Invoke {A} c.

Definition step_map {A B} (f : A -> B) (s : step A) : step B :=
  match s with
  | Abort e => Abort e
  | Idle => Idle
  | Warn m => Warn m
  | Err m => Err m
  | Note m => Note m
  | Invoke c => Invoke (f c)
  end.

(** What a core call hands back to the script. *)
Inductive value : Type :=
| VStr (s : str)
| VPair (a b : str)
| VBool (b : bool).

(** [st.secrets.get(k) if k in st.secrets else None] *)
Definition pepper_secret (i : inputs) : option str := secrets i !! "PEPPER"%string.
Definition hmac_key_secret (i : inputs) : option str := secrets i !! "HMAC_KEY"%string.

(** The demo fields are rendered only when the secret is missing. *)
Definition pepper_demo (i : inputs) : option str :=
  match pepper_secret i with
  | None => Some (pepper_demo_input i)
  | Some _ => None
  end.

Definition hmac_key_demo (i : inputs) : option str :=
  match hmac_key_secret i with
  | None => Some (hmac_key_demo_input i)
  | Some _ => None
  end.

(** [demo or None] *)
Definition demo_or_None (demo : option str) : option str :=
  match demo with
  | Some s => or_None s
  | None => None
  end.

Definition pepper_value (i : inputs) : option str :=
  match pepper_secret i with
  | Some s => Some s
  | None => demo_or_None (pepper_demo i)
  end.

Definition hmac_key_value (i : inputs) : option str :=
  match hmac_key_secret i with
  | Some s => Some s
  | None => demo_or_None (hmac_key_demo i)
  end.

(** The [try] around [base64.b64decode] catches every exception; the
    [encode] of the handler is not guarded. *)
Definition hmac_key_bytes (i : inputs) : exc + option bytes :=
  match hmac_key_value i with
  | Some v =>
    match b64decode v with
    | inr k => inr (Some k)
    | inl _ =>
      match encode_utf8 v with
      | inr k => inr (Some k)
      | inl e => inl e
      end
    end
  | None => inr None
  end.

Definition algorithms : list str :=
  [lit "sha256"; lit "sha1"; lit "sha512"; lit "blake2b"].

(** [algorithms.index("sha256")] *)
Definition alg_index : nat := 0.

(** [st.selectbox]: the option selected, the one at [index] to begin with. *)
Definition selectbox (options : list str) (index choice : nat) : str :=
  nth choice options (nth index options []).

Definition alg (i : inputs) : str := selectbox algorithms alg_index (alg_choice i).

Definition max_size_bytes : nat := N.to_nat (10 * 1024 * 1024).

(** The block of the script behind each button. *)
Definition handler (i : inputs) (b : button) : step call :=
  match hmac_key_bytes i with
  | inl e => Abort e
  | inr key_bytes =>
    match b with
    | BtnHashText =>
      if truthy (text_input i)
      then Invoke (CallHashText (text_input i) (alg i))
      else Warn "Introduce texto primero."
    | BtnCopy => Note "Selecciona y copia manualmente el hash mostrado arriba."
    | BtnHashFile =>
      match uploaded i with
      | None => Idle
      | Some u =>
        if (max_size_bytes <? size u)%nat then Err "Archivo muy grande (> 10485760 bytes). Ajusta límite en el código si lo necesitas."
        else Invoke (CallHashFile (content u) (alg i) CHUNK_SIZE)
      end
    | BtnSalt =>
      if truthy (text_input i)
      then Invoke (CallWithSalt (text_input i) (or_None (salt_text i)) (alg i))
      else Warn "Introduce texto antes."
    | BtnPepper =>
      if truthy (text_input i) then
        match pepper_value i with
        | None => Err "Pepper no proporcionado. Pon `PEPPER` en st.secrets o usa el campo demo en la sidebar."
        | Some p => Invoke (CallWithPepper (text_input i) p (alg i))
        end
      else Warn "Introduce texto antes."
    | BtnHmac =>
      if truthy (text_input i) then
        match key_bytes with
        | None => Err "Clave HMAC no proporcionada. Pon `HMAC_KEY` en st.secrets o usa el campo demo."
        | Some k => Invoke (CallHmac (text_input i) k (alg i))
        end
      else Warn "Introduce texto antes."
    | BtnCompare =>
      if truthy (h1 i) && truthy (h2 i)
      then Invoke (CallCompare (strip (h1 i)) (strip (h2 i)))
      else Warn "Introduce ambos hashes."
    | BtnCsv => Note "Descargar CSV de ejemplo"
    end
  end.

(** The algorithm identifier a call carries, if any. *)
Definition call_alg (c : call) : option str :=
  match c with
  | CallHashText _ a => Some a
  | CallHashFile _ a _ => Some a
  | CallWithSalt _ _ a => Some a
  | CallWithPepper _ _ a => Some a
  | CallHmac _ _ a => Some a
  | CallCompare _ _ => None
  end.

Section Run.

Variable H : AlgorithmId -> bytes -> bytes.
Variable entropy : nat -> byte.

(** The core operation behind each call. *)
Definition exec (c : call) : result value :=
  match c with
  | CallHashText text a => let* h := hash_text H text a in inr (VStr h)
  | CallHashFile src a n => let* h := hash_file_chunked H src a n in inr (VStr h)
  | CallWithSalt text salt a =>
    let* r := with_salt H entropy text salt a in inr (VPair (fst r) (snd r))
  | CallWithPepper text p a =>
    let* h := with_pepper H text (Some p) a in inr (VStr h)
  | CallHmac text k a => let* h := hmac_text H text k a in inr (VStr h)
  | CallCompare a b => inr (VBool (compare_hashes a b))
  end.

(** A run of the script with button [b] pressed: [Invoke (inr v)] shows the
    value, [Invoke (inl f)] is the core call failing. *)
Definition run (i : inputs) (b : button) : step (result value) :=
  step_map exec (handler i b).

End Run.

(** A key string reaches the script from the secret store, or, without the
    secret, from a demo field that is not left empty. *)
Definition key_supplied (i : inputs) (v : str) : Prop :=
  hmac_key_secret i = Some v
  \/ (hmac_key_secret i = None /\ hmac_key_demo_input i = v /\ v <> []).

(** The reading of "the key passed to the HMAC call is exactly the
    secret-store value": the bytes of the secret string itself. *)
Definition secret_key_verbatim : Prop :=
  forall (i : inputs) (s text : str) (k : bytes) (a : str),
    hmac_key_secret i = Some s ->
    handler i BtnHmac = Invoke (CallHmac text k a) ->
    encode_utf8 s = inr k.

(** The key bytes the script derives from a key string. *)
Definition decode_key (v : str) : exc + bytes :=
  match b64decode v with
  | inr k => inr k
  | inl _ => encode_utf8 v
  end.

End App.

(** ** Example inputs *)

Module Examples.
Import Py HashUtils App.

(** A fresh page: no secret, every widget at its initial value. *)
Definition fresh : inputs :=
  {| secrets := ∅;
     pepper_demo_input := [];
     hmac_key_demo_input := [];
     alg_choice := alg_index;
     text_input := [];
     uploaded := None;
     salt_len := 16;
     salt_text := [];
     h1 := [];
     h2 := [] |}.

Definition with_secrets (m : gmap string str) (i : inputs) : inputs :=
  {| secrets := m;
     pepper_demo_input := pepper_demo_input i;
     hmac_key_demo_input := hmac_key_demo_input i;
     alg_choice := alg_choice i;
     text_input := text_input i;
     uploaded := uploaded i;
     salt_len := salt_len i;
     salt_text := salt_text i;
     h1 := h1 i;
     h2 := h2 i |}.

Definition with_pepper_demo (p : str) (i : inputs) : inputs :=
  {| secrets := secrets i;
     pepper_demo_input := p;
     hmac_key_demo_input := hmac_key_demo_input i;
     alg_choice := alg_choice i;
     text_input := text_input i;
     uploaded := uploaded i;
     salt_len := salt_len i;
     salt_text := salt_text i;
     h1 := h1 i;
     h2 := h2 i |}.

Definition with_key_demo (k : str) (i : inputs) : inputs :=
  {| secrets := secrets i;
     pepper_demo_input := pepper_demo_input i;
     hmac_key_demo_input := k;
     alg_choice := alg_choice i;
     text_input := text_input i;
     uploaded := uploaded i;
     salt_len := salt_len i;
     salt_text := salt_text i;
     h1 := h1 i;
     h2 := h2 i |}.

Definition with_text (t : str) (i : inputs) : inputs :=
  {| secrets := secrets i;
     pepper_demo_input := pepper_demo_input i;
     hmac_key_demo_input := hmac_key_demo_input i;
     alg_choice := alg_choice i;
     text_input := t;
     uploaded := uploaded i;
     salt_len := salt_len i;
     salt_text := salt_text i;
     h1 := h1 i;
     h2 := h2 i |}.

Definition with_salt_len (n : N) (i : inputs) : inputs :=
  {| secrets := secrets i;
     pepper_demo_input := pepper_demo_input i;
     hmac_key_demo_input := hmac_key_demo_input i;
     alg_choice := alg_choice i;
     text_input := text_input i;
     uploaded := uploaded i;
     salt_len := n;
     salt_text := salt_text i;
     h1 := h1 i;
     h2 := h2 i |}.

Definition with_hashes (a b : str) (i : inputs) : inputs :=
  {| secrets := secrets i;
     pepper_demo_input := pepper_demo_input i;
     hmac_key_demo_input := hmac_key_demo_input i;
     alg_choice := alg_choice i;
     text_input := text_input i;
     uploaded := uploaded i;
     salt_len := salt_len i;
     salt_text := salt_text i;
     h1 := a;
     h2 := b |}.

(** The secret store with one entry. *)
Definition one_secret (k : string) (v : str) : gmap string str := <[k := v]> ∅.

(** A stand-in digest function for evaluating the script: the first
    [digest_size] bytes of the input, filled up with zero bytes. *)
Definition toy_digest (a : AlgorithmId) (data : bytes) : bytes :=
  take (digest_size a) (data ++ replicate (digest_size a) x00).

(** A stand-in random source: the bytes 0, 1, 2, ... *)
Definition counting (k : nat) : byte := byte_of_N (N.of_nat k).

End Examples.

(** ** The file block, the CSV text and reference encoders *)

Module Page.
Import Py HashUtils App.

(** [s.split(sep)] for a one-character separator. *)
Fixpoint split_on (sep : N) (s : str) : list str :=
  match s with
  | [] => [[]]
  | c :: r =>
    if c =? sep then [] :: split_on sep r
    else
      match split_on sep r with
      | [] => [[c]]
      | f :: fs => (c :: f) :: fs
      end
  end.

(** A string without comma and without line feed. *)
Definition sepfree (s : str) : Prop := ~ In 44 s /\ ~ In 10 s.

Definition csv_header : str := lit "filename,algorithm,hash".

(** The data line of the CSV text, without its line feed:
    [{uploaded.name},{alg},{digest}]. *)
Definition csv_row (file_name alg digest : str) : str :=
  file_name ++ [44] ++ alg ++ [44] ++ digest.

(** The CSV text offered for download: the header line, then the data
    line. *)
Definition csv_str (file_name alg digest : str) : str :=
  (csv_header ++ [10]) ++ (csv_row file_name alg digest ++ [10]).

Section FileBlock.

Variable H : AlgorithmId -> bytes -> bytes.

(** The file block with its button pressed: the digest shown and the CSV
    text offered for download. *)
Definition file_block (i : inputs) : step (result (str * str)) :=
  match hmac_key_bytes i with
  | inl e => Abort e
  | inr _ =>
    match uploaded i with
    | None => Idle
    | Some u =>
      if (max_size_bytes <? size u)%nat then Err "Archivo muy grande (> 10485760 bytes). Ajusta límite en el código si lo necesitas."
      else
        Invoke (let* digest := hash_file_chunked H (content u) (alg i) CHUNK_SIZE in
                inr (digest, csv_str (name u) (alg i) digest))
    end
  end.

End FileBlock.

(** The characters [b64decode] does not skip: the alphabet and the pad. *)
Definition b64_keep (c : N) : bool :=
  (c =? 61) || match b64_value c with Some _ => true | None => false end.

(** The character of the base64 alphabet for a six-bit value. *)
Definition b64_char (v : N) : N :=
  if v <? 26 then 65 + v
  else if v <? 52 then 71 + v
  else if v <? 62 then v - 4
  else if v =? 62 then 43
  else 47.

(** The standard base64 text of a byte sequence, padded with '='; the
    reference the decoding of a pasted key is measured against. *)
Fixpoint b64encode (bs : bytes) : str :=
  match bs with
  | [] => []
  | [b1] =>
    [b64_char (N.shiftr (Byte.to_N b1) 2);
     b64_char (N.shiftl (N.land (Byte.to_N b1) 3) 4);
     61; 61]
  | [b1; b2] =>
    [b64_char (N.shiftr (Byte.to_N b1) 2);
     b64_char (N.lor (N.shiftl (N.land (Byte.to_N b1) 3) 4)
                     (N.shiftr (Byte.to_N b2) 4));
     b64_char (N.shiftl (N.land (Byte.to_N b2) 15) 2);
     61]
  | b1 :: b2 :: b3 :: r =>
    [b64_char (N.shiftr (Byte.to_N b1) 2);
     b64_char (N.lor (N.shiftl (N.land (Byte.to_N b1) 3) 4)
                     (N.shiftr (Byte.to_N b2) 4));
     b64_char (N.lor (N.shiftl (N.land (Byte.to_N b2) 15) 2)
                     (N.shiftr (Byte.to_N b3) 6));
     b64_char (N.land (Byte.to_N b3) 63)]
    ++ b64encode r
  end.

(** A Unicode scalar value: a code point that is not a surrogate. *)
Definition scalar (c : N) : bool :=
  (c <? 1114112) && negb ((55296 <=? c) && (c <=? 57343)).


(** The text a call carries, if any. *)
Definition call_text (c : call) : option str :=
  match c with
  | CallHashText t _ => Some t
  | CallHashFile _ _ _ => None
  | CallWithSalt t _ _ => Some t
  | CallWithPepper t _ _ => Some t
  | CallHmac t _ _ => Some t
  | CallCompare _ _ => None
  end.

(** The inputs with another upload. *)
Definition with_upload (u : option upload) (i : inputs) : inputs :=
  {| secrets := secrets i;
     pepper_demo_input := pepper_demo_input i;
     hmac_key_demo_input := hmac_key_demo_input i;
     alg_choice := alg_choice i;
     text_input := text_input i;
     uploaded := u;
     salt_len := salt_len i;
     salt_text := salt_text i;
     h1 := h1 i;
     h2 := h2 i |}.

End Page.

(** ** The comparator *)

Module ComparatorFacts.
Import Py HashUtils.

Lemma diff_acc_zero (a b : str) (acc : N) :
  diff_acc acc a b = 0 -> acc = 0.
Proof.
  revert b acc. induction a as [|x a IH]; intros [|y b] acc Hd; simpl in Hd; auto.
  apply IH in Hd. apply N.lor_eq_0_iff in Hd. tauto.
Qed.

Lemma diff_acc_eq (a b : str) (acc : N) :
  length a = length b -> diff_acc acc a b = 0 -> a = b.
Proof.
  revert b acc. induction a as [|x a IH]; intros [|y b] acc Hlen Hd;
    simpl in *; try discriminate; auto.
  injection Hlen as Hlen.
  pose proof (diff_acc_zero _ _ _ Hd) as Hz.
  apply N.lor_eq_0_iff in Hz. destruct Hz as [_ Hxy].
  apply N.lxor_eq in Hxy. subst y.
  f_equal. eapply IH; eauto.
Qed.

Lemma diff_acc_refl (a : str) : diff_acc 0 a a = 0.
Proof.
  induction a as [|x a IH]; simpl; auto.
  rewrite N.lxor_nilpotent. exact IH.
Qed.

Lemma compare_hashes_eq (a b : str) : compare_hashes a b = true <-> a = b.
Proof.
  unfold compare_hashes. split.
  - destruct (Nat.eqb_spec (length a) (length b)) as [Hlen|]; [|discriminate].
    intros Hd. apply N.eqb_eq in Hd. eapply diff_acc_eq; eauto.
  - intros ->. rewrite Nat.eqb_refl, diff_acc_refl. reflexivity.
Qed.

Lemma compare_hashes_decide (a b : str) :
  compare_hashes a b = bool_decide (a = b).
Proof.
  case_bool_decide as Heq.
  - apply compare_hashes_eq, Heq.
  - destruct (compare_hashes a b) eqn:Hc; auto.
    exfalso. apply Heq, compare_hashes_eq, Hc.
Qed.

(** C1: [compare_hashes a b] is true exactly when [a] and [b] are the same
    sequence of characters (so upper and lower case differ); when the
    lengths differ it is false. *)
Theorem compare_hashes_correct (a b : str) :
  (compare_hashes a b = true <-> a = b)
  /\ (length a <> length b -> compare_hashes a b = false).
Proof.
  split; [apply compare_hashes_eq|].
  intros Hne. rewrite compare_hashes_decide.
  apply bool_decide_eq_false. intros ->. apply Hne. reflexivity.
Qed.

(** Case matters, and so does a missing character. *)
Example compare_hashes_samples :
  compare_hashes (lit "ab12") (lit "ab12") = true
  /\ compare_hashes (lit "ab12") (lit "AB12") = false
  /\ compare_hashes (lit "ab12") (lit "ab1") = false.
Proof. repeat split; vm_compute; reflexivity. Qed.

End ComparatorFacts.

(** ** [str.strip()] *)

Module StripFacts.
Import Py.

Lemma lstrip_blank_app (l s : str) : blank l -> lstrip (l ++ s) = lstrip s.
Proof.
  unfold blank. induction l as [|c l IH]; simpl; auto.
  intros Hb. apply andb_true_iff in Hb. destruct Hb as [Hc Hl].
  rewrite Hc. auto.
Qed.

Lemma lstrip_nil_blank (s : str) : lstrip s = [] -> blank s.
Proof.
  unfold blank. induction s as [|c s IH]; simpl; auto.
  destruct (isspace c); [auto | discriminate].
Qed.

Lemma lstrip_app (s r : str) : lstrip s <> [] -> lstrip (s ++ r) = lstrip s ++ r.
Proof.
  induction s as [|c s IH]; simpl; [congruence|].
  destruct (isspace c); auto.
Qed.

Lemma blank_rev (s : str) : blank s -> blank (rev s).
Proof.
  unfold blank. rewrite !forallb_forall. intros Hs x Hx.
  apply Hs. apply in_rev. exact Hx.
Qed.

Lemma blank_app (s r : str) : blank s -> blank r -> blank (s ++ r).
Proof.
  unfold blank. rewrite forallb_app. intros -> ->. reflexivity.
Qed.

Lemma lstrip_blank (s : str) : blank s -> lstrip s = [].
Proof.
  intros Hb. rewrite <- (app_nil_r s). rewrite lstrip_blank_app; auto.
Qed.

Lemma rstrip_app_blank (s r : str) : blank r -> rstrip (s ++ r) = rstrip s.
Proof.
  intros Hb. unfold rstrip. rewrite rev_app_distr.
  rewrite lstrip_blank_app; auto using blank_rev.
Qed.

(** Whitespace around a string does not change what [strip] returns. *)
Lemma strip_surround (l c r : str) :
  blank l -> blank r -> strip (l ++ c ++ r) = strip c.
Proof.
  intros Hl Hr. unfold strip. rewrite lstrip_blank_app by exact Hl.
  destruct (lstrip c) as [|x t] eqn:Hc.
  - apply lstrip_nil_blank in Hc.
    rewrite lstrip_blank; [reflexivity | apply blank_app; assumption].
  - rewrite lstrip_app by congruence. rewrite Hc.
    apply rstrip_app_blank. exact Hr.
Qed.

End StripFacts.

(** ** The algorithm selection *)

Module AlgorithmFacts.
Import Py HashUtils App.

Lemma alg_cases (i : inputs) :
  alg i = alg_name sha256 \/ alg i = alg_name sha1
  \/ alg i = alg_name sha512 \/ alg i = alg_name blake2b.
Proof.
  unfold alg, selectbox.
  destruct (alg_choice i) as [|[|[|[|n]]]]; simpl; auto.
  destruct n; auto.
Qed.

Lemma resolve_name (a : AlgorithmId) : resolve (alg_name a) = inr a.
Proof. destruct a; vm_compute; reflexivity. Qed.

Lemma alg_resolves (i : inputs) : exists a, alg i = alg_name a.
Proof. destruct (alg_cases i) as [E|[E|[E|E]]]; eauto. Qed.

Lemma alg_listed (i : inputs) : In (alg i) algorithms.
Proof.
  destruct (alg_cases i) as [E|[E|[E|E]]]; rewrite E; simpl; auto.
Qed.

Lemma truthy_true (s : str) : s <> [] -> truthy s = true.
Proof. destruct s; [congruence | reflexivity]. Qed.

Lemma truthy_inv (s : str) : truthy s = true -> s <> [].
Proof. destruct s; [discriminate | congruence]. Qed.

(** With a positive chunk size the read loop feeds the whole source to the
    hash, whatever the chunk size. *)
Lemma read_chunks_all (fuel n : nat) (src acc : bytes) :
  (0 < n)%nat -> (length src < fuel)%nat ->
  read_chunks fuel n src acc = acc ++ src.
Proof.
  intros Hn. revert src acc.
  induction fuel as [|fuel IH]; intros src acc Hlen; [lia|].
  simpl. destruct (take n src) as [|x chunk] eqn:Ht.
  - destruct src as [|y src]; [rewrite app_nil_r; reflexivity|].
    destruct n; [lia | simpl in Ht; discriminate Ht].
  - rewrite <- Ht. rewrite IH.
    + rewrite <- app_assoc, take_drop. reflexivity.
    + rewrite length_drop.
      destruct src; [destruct n; discriminate Ht|]. simpl in *. lia.
Qed.

Lemma hash_file_chunked_whole (H : AlgorithmId -> bytes -> bytes)
  (src : bytes) (a : AlgorithmId) (n : nat) :
  (0 < n)%nat ->
  hash_file_chunked H src (alg_name a) n = inr (hex (H a src)).
Proof.
  intros Hn. unfold hash_file_chunked, bind. rewrite resolve_name.
  destruct (Nat.eqb_spec n 0) as [->|_]; [lia|].
  rewrite read_chunks_all by (try exact Hn; lia). reflexivity.
Qed.

(** Every call the script makes carries the selected algorithm. *)
Lemma handler_call_alg (i : inputs) (b : button) (c : call) (id : str) :
  handler i b = Invoke c -> call_alg c = Some id -> id = alg i.
Proof.
  unfold handler. destruct (hmac_key_bytes i) as [e|kb]; [discriminate|].
  destruct b; intros Hh Hc;
    repeat match type of Hh with
           | context [if ?x then _ else _] => destruct x
           | context [match ?x with _ => _ end] => destruct x
           end;
    try discriminate; injection Hh as <-; simpl in Hc; congruence.
Qed.

Lemma fromhex_failure (s : str) (f : failure) :
  fromhex s = inl f -> f = InvalidArgument.
Proof.
  remember (length s) as n eqn:Hn. revert s Hn f.
  induction n as [n IH] using lt_wf_ind. intros s Hn f.
  destruct s as [|hi [|lo r]]; simpl; try congruence.
  destruct (unhex_digit hi), (unhex_digit lo); try congruence.
  destruct (fromhex r) as [f'|rest] eqn:Hr; simpl; [|discriminate].
  intros [= <-]. eapply (IH (length r)); eauto. subst n. simpl. lia.
Qed.

Section Supported.

Variable H : AlgorithmId -> bytes -> bytes.
Variable entropy : nat -> byte.

Ltac split_result :=
  repeat match goal with
         | |- context [match ?x with _ => _ end] =>
           lazymatch x with
           | context [match _ with _ => _ end] => fail
           | _ => destruct x eqn:?
           end
         end;
  simpl; try discriminate.

Lemma exec_supported (c : call) :
  (forall id, call_alg c = Some id -> exists a, id = alg_name a) ->
  exec H entropy c <> inl UnsupportedAlgorithm.
Proof.
  intros Hid. destruct c as [t a|src a n|t s a|t p a|t k a|x y]; simpl in *;
    try discriminate;
    destruct (Hid a eq_refl) as [id ->];
    unfold hash_text, hash_file_chunked, with_salt, with_pepper, hmac_text,
      apply_salt, normalize_salt, generate_salt, bind, lift;
    rewrite resolve_name; simpl; split_result.
  intros [= ->].
  match goal with
  | Hf : fromhex _ = inl _ |- _ => apply fromhex_failure in Hf; discriminate
  end.
Qed.

End Supported.

End AlgorithmFacts.

(** ** Secrets, demo fields and the HMAC key *)

Module KeyFacts.
Import Py HashUtils App Examples AlgorithmFacts.

Lemma key_supplied_value (i : inputs) (v : str) :
  key_supplied i v <-> hmac_key_value i = Some v.
Proof.
  unfold key_supplied, hmac_key_value, hmac_key_demo, demo_or_None, or_None.
  destruct (hmac_key_secret i) as [s|].
  - split; [intros [E|[E _]]; congruence | auto].
  - split.
    + intros [E|[_ [E Hv]]]; [discriminate|]. rewrite E, truthy_true; auto.
    + destruct (truthy (hmac_key_demo_input i)) eqn:Ht; [|discriminate].
      intros [= <-]. right. auto using truthy_inv.
Qed.

Lemma hmac_key_bytes_decode (i : inputs) (v : str) :
  hmac_key_value i = Some v ->
  hmac_key_bytes i =
    match decode_key v with
    | inr k => inr (Some k)
    | inl e => inl e
    end.
Proof.
  intros Hv. unfold hmac_key_bytes, decode_key. rewrite Hv.
  destruct (b64decode v); [destruct (encode_utf8 v)|]; reflexivity.
Qed.

Lemma handler_hmac (i : inputs) (kb : option bytes) :
  hmac_key_bytes i = inr kb ->
  text_input i <> [] ->
  handler i BtnHmac =
    match kb with
    | Some k => Invoke (CallHmac (text_input i) k (alg i))
    | None => Err "Clave HMAC no proporcionada. Pon `HMAC_KEY` en st.secrets o usa el campo demo."
    end.
Proof.
  intros Hk Ht. unfold handler. rewrite Hk, truthy_true by exact Ht. reflexivity.
Qed.

(** C3: a key string that reaches the script is passed to [hmac_text] as
    its base64 decoding when [b64decode] returns, and as its UTF-8
    encoding exactly when [b64decode] raises; when the encoding raises in
    turn, the run stops there. *)
Theorem hmac_key_decoding (i : inputs) (v : str) :
  key_supplied i v ->
  text_input i <> [] ->
  (forall k, b64decode v = inr k ->
     handler i BtnHmac = Invoke (CallHmac (text_input i) k (alg i)))
  /\ (forall e k, b64decode v = inl e -> encode_utf8 v = inr k ->
        handler i BtnHmac = Invoke (CallHmac (text_input i) k (alg i)))
  /\ (forall e e', b64decode v = inl e -> encode_utf8 v = inl e' ->
        handler i BtnHmac = Abort e').
Proof.
  intros Hs Ht. apply key_supplied_value in Hs.
  pose proof (hmac_key_bytes_decode i v Hs) as Hb. unfold decode_key in Hb.
  repeat split.
  - intros k Hd. rewrite Hd in Hb. rewrite (handler_hmac i (Some k)); auto.
  - intros e k Hd He. rewrite Hd, He in Hb. rewrite (handler_hmac i (Some k)); auto.
  - intros e e' Hd He. rewrite Hd, He in Hb. unfold handler. rewrite Hb. reflexivity.
Qed.

(** A demo key that is not base64 is used as text. *)
Lemma hmac_key_decoding_witness :
  handler (with_text (lit "hi") (with_key_demo (lit "key") fresh)) BtnHmac
  = Invoke (CallHmac (lit "hi") ["k"%byte; "e"%byte; "y"%byte] (lit "sha256")).
Proof.
  refine (proj1 (proj2 (hmac_key_decoding
            (with_text (lit "hi") (with_key_demo (lit "key") fresh))
            (lit "key") _ _)) BinasciiError _ _ _).
  - right. repeat split. discriminate.
  - discriminate.
  - vm_compute. reflexivity.
  - vm_compute. reflexivity.
Defined.

(** A secret that is valid base64 is decoded. *)
Example secret_key_decoded :
  handler (with_text (lit "hi")
             (with_secrets (one_secret "HMAC_KEY" (lit "abcd")) fresh)) BtnHmac
  = Invoke (CallHmac (lit "hi") ["i"%byte; "183"%byte; "029"%byte] (lit "sha256")).
Proof. vm_compute. reflexivity. Qed.

Section Keys.

Variable H : AlgorithmId -> bytes -> bytes.
Variable entropy : nat -> byte.

Lemma hmac_text_empty_key (text : str) (a : AlgorithmId) :
  hmac_text H text [] (alg_name a) = inl InvalidArgument.
Proof. unfold hmac_text. rewrite resolve_name. reflexivity. Qed.

Lemma hmac_text_success (text : str) (k : bytes) (alg : str) (h : str) :
  hmac_text H text k alg = inr h -> k <> [].
Proof.
  unfold hmac_text, bind. destruct (resolve alg); [discriminate|].
  destruct k; [discriminate | congruence].
Qed.

Lemma run_hmac_success (i : inputs) (v : value) :
  run H entropy i BtnHmac = Invoke (inr v) ->
  exists k, hmac_key_bytes i = inr (Some k) /\ k <> [].
Proof.
  unfold run, handler.
  destruct (hmac_key_bytes i) as [e|[k|]]; simpl; try discriminate;
    destruct (truthy (text_input i)); simpl; try discriminate.
  destruct (hmac_text H (text_input i) k (alg i)) as [f|h] eqn:Hh;
    simpl; [discriminate|].
  intros _. exists k. split; [reflexivity|]. eapply hmac_text_success; eauto.
Qed.

(** C4: [hmac_text] with an empty key fails with [InvalidArgument] for every
    text and algorithm; an empty secret does reach the call as the empty
    key, that run fails with [InvalidArgument], and no run of the HMAC
    block shows a value computed under the empty key. *)
Theorem hmac_empty_key_rejected :
  (forall text a, hmac_text H text [] (alg_name a) = inl InvalidArgument)
  /\ (forall i, hmac_key_secret i = Some [] -> hmac_key_bytes i = inr (Some []))
  /\ (forall i, hmac_key_bytes i = inr (Some []) -> text_input i <> [] ->
        handler i BtnHmac = Invoke (CallHmac (text_input i) [] (alg i))
        /\ run H entropy i BtnHmac = Invoke (inl InvalidArgument))
  /\ (forall i v, run H entropy i BtnHmac = Invoke (inr v) ->
        exists k, hmac_key_bytes i = inr (Some k) /\ k <> []).
Proof.
  split; [exact hmac_text_empty_key|].
  split.
  { intros i Hs. unfold hmac_key_bytes, hmac_key_value. rewrite Hs. reflexivity. }
  split; [|exact run_hmac_success].
  intros i Hk Ht.
  pose proof (handler_hmac i (Some []) Hk Ht) as Hh. simpl in Hh.
  split; [exact Hh|].
  unfold run. rewrite Hh. simpl.
  destruct (alg_resolves i) as [a ->]. rewrite hmac_text_empty_key. reflexivity.
Qed.

End Keys.

(** An empty secret, and a demo key without a base64 character, both end
    in the failure of the call. *)
Example empty_key_runs :
  run toy_digest counting
    (with_text (lit "hi") (with_secrets (one_secret "HMAC_KEY" []) fresh)) BtnHmac
  = Invoke (inl InvalidArgument)
  /\ run toy_digest counting
       (with_text (lit "hi") (with_key_demo (lit "-") fresh)) BtnHmac
     = Invoke (inl InvalidArgument).
Proof. split; vm_compute; reflexivity. Qed.

End KeyFacts.

(** ** Where the pepper and the key come from *)

Module SecretFacts.
Import Py HashUtils App Examples AlgorithmFacts KeyFacts.

Lemma pepper_secret_wins (i : inputs) (s : str) :
  pepper_secret i = Some s -> pepper_value i = Some s.
Proof. intros Hs. unfold pepper_value. rewrite Hs. reflexivity. Qed.

Lemma hmac_secret_wins (i : inputs) (s : str) :
  hmac_key_secret i = Some s -> hmac_key_value i = Some s.
Proof. intros Hs. unfold hmac_key_value. rewrite Hs. reflexivity. Qed.

Lemma pepper_demo_unused (i : inputs) (s p : str) (b : button) :
  pepper_secret i = Some s -> handler (with_pepper_demo p i) b = handler i b.
Proof.
  intros Hs. unfold handler, hmac_key_bytes, hmac_key_value, hmac_key_demo,
    pepper_value, pepper_demo, pepper_secret, hmac_key_secret in *.
  simpl. rewrite Hs. reflexivity.
Qed.

Lemma key_demo_unused (i : inputs) (s k : str) (b : button) :
  hmac_key_secret i = Some s -> handler (with_key_demo k i) b = handler i b.
Proof.
  intros Hs. unfold handler, hmac_key_bytes, hmac_key_value, hmac_key_demo,
    pepper_value, pepper_demo, pepper_secret, hmac_key_secret in *.
  simpl. rewrite Hs. reflexivity.
Qed.

Lemma pepper_call (i : inputs) (s : str) (c : call) :
  pepper_secret i = Some s ->
  handler i BtnPepper = Invoke c ->
  c = CallWithPepper (text_input i) s (alg i).
Proof.
  intros Hs. unfold handler. rewrite (pepper_secret_wins i s Hs).
  destruct (hmac_key_bytes i); [discriminate|].
  destruct (truthy (text_input i)); [|discriminate]. congruence.
Qed.

Lemma hmac_call (i : inputs) (s : str) (c : call) :
  hmac_key_secret i = Some s ->
  handler i BtnHmac = Invoke c ->
  exists k, decode_key s = inr k /\ c = CallHmac (text_input i) k (alg i).
Proof.
  intros Hs. unfold handler.
  rewrite (hmac_key_bytes_decode i s (hmac_secret_wins i s Hs)).
  destruct (decode_key s) as [e|k]; [discriminate|].
  destruct (truthy (text_input i)); [|discriminate].
  intros [= <-]. eauto.
Qed.

(** C8, as the script has it: with PEPPER in the secret store the pepper
    call receives exactly the secret and no run depends on the demo pepper;
    with HMAC_KEY in the store the HMAC call receives the key bytes decoded
    from the secret (base64, else UTF-8) and no run depends on the demo
    key; a run that depends on a demo field has the matching secret
    missing. *)
Theorem secrets_take_precedence (i : inputs) :
  (forall s, pepper_secret i = Some s ->
     (forall p b, handler (with_pepper_demo p i) b = handler i b)
     /\ (forall c, handler i BtnPepper = Invoke c ->
           c = CallWithPepper (text_input i) s (alg i)))
  /\ (forall s, hmac_key_secret i = Some s ->
        (forall k b, handler (with_key_demo k i) b = handler i b)
        /\ (forall c, handler i BtnHmac = Invoke c ->
              exists k, decode_key s = inr k
                        /\ c = CallHmac (text_input i) k (alg i)))
  /\ (forall p b, handler (with_pepper_demo p i) b <> handler i b ->
        pepper_secret i = None)
  /\ (forall k b, handler (with_key_demo k i) b <> handler i b ->
        hmac_key_secret i = None).
Proof.
  repeat split.
  - intros p b. eapply pepper_demo_unused; eauto.
  - intros c. apply pepper_call; assumption.
  - intros k b. eapply key_demo_unused; eauto.
  - intros c. apply hmac_call; assumption.
  - intros p b Hne. destruct (pepper_secret i) as [s|] eqn:Hs; [|reflexivity].
    exfalso. apply Hne. eapply pepper_demo_unused; eauto.
  - intros k b Hne. destruct (hmac_key_secret i) as [s|] eqn:Hs; [|reflexivity].
    exfalso. apply Hne. eapply key_demo_unused; eauto.
Qed.

(** The secret [abcd] is not passed as the four bytes of its text: the
    call receives the three bytes it decodes to. *)
Lemma secret_key_not_verbatim : ~ secret_key_verbatim.
Proof.
  intros Hv.
  specialize (Hv (with_text (lit "hi")
                    (with_secrets (one_secret "HMAC_KEY" (lit "abcd")) fresh))
                 (lit "abcd") (lit "hi")
                 ["i"%byte; "183"%byte; "029"%byte] (lit "sha256")).
  assert (Hs : encode_utf8 (lit "abcd")
               = inr ["i"%byte; "183"%byte; "029"%byte]).
  { apply Hv; vm_compute; reflexivity. }
  vm_compute in Hs. discriminate Hs.
Qed.

End SecretFacts.

(** ** The pepper *)

Module PepperFacts.
Import Py HashUtils App Examples AlgorithmFacts.

Section Pepper.

Variable H : AlgorithmId -> bytes -> bytes.
Variable entropy : nat -> byte.

Lemma with_pepper_missing (text : str) (a : AlgorithmId) :
  with_pepper H text None (alg_name a) = inl InvalidArgument
  /\ with_pepper H text (Some []) (alg_name a) = inl InvalidArgument.
Proof. unfold with_pepper. rewrite resolve_name. split; reflexivity. Qed.

Lemma with_pepper_success (text : str) (p : option str) (alg h : str) :
  with_pepper H text p alg = inr h -> exists q, p = Some q /\ q <> [].
Proof.
  unfold with_pepper, bind. destruct (resolve alg); [discriminate|].
  destruct p as [[|c q]|]; try discriminate.
  intros _. exists (c :: q). split; congruence.
Qed.

Lemma run_pepper_success (i : inputs) (v : value) :
  run H entropy i BtnPepper = Invoke (inr v) ->
  exists p, pepper_value i = Some p /\ p <> [].
Proof.
  unfold run, handler.
  destruct (hmac_key_bytes i) as [e|kb]; simpl; [discriminate|].
  destruct (truthy (text_input i)); simpl; [|discriminate].
  destruct (pepper_value i) as [p|]; simpl; [|discriminate].
  destruct (with_pepper H (text_input i) (Some p) (alg i)) as [f|h] eqn:Hp;
    simpl; [discriminate|].
  intros _. apply with_pepper_success in Hp. destruct Hp as [q [[= <-] Hq]].
  eauto.
Qed.

(** C5: [with_pepper] fails with [InvalidArgument] on an absent and on an
    empty pepper, for every text and algorithm; in a run of the script that
    gets past the key decoding, with a text filled in, a missing pepper is
    answered by an error message, and an empty PEPPER secret reaches the
    call and the run fails with [InvalidArgument]; no run of the pepper
    block shows a value without a non-empty pepper. *)
Theorem pepper_missing_rejected :
  (forall text a,
     with_pepper H text None (alg_name a) = inl InvalidArgument
     /\ with_pepper H text (Some []) (alg_name a) = inl InvalidArgument)
  /\ (forall i kb, hmac_key_bytes i = inr kb -> text_input i <> [] ->
        (pepper_value i = None ->
           run H entropy i BtnPepper = Err "Pepper no proporcionado. Pon `PEPPER` en st.secrets o usa el campo demo en la sidebar.")
        /\ (pepper_secret i = Some [] ->
              handler i BtnPepper = Invoke (CallWithPepper (text_input i) [] (alg i))
              /\ run H entropy i BtnPepper = Invoke (inl InvalidArgument)))
  /\ (forall i v, run H entropy i BtnPepper = Invoke (inr v) ->
        exists p, pepper_value i = Some p /\ p <> []).
Proof.
  split; [exact with_pepper_missing|].
  split; [|exact run_pepper_success].
  intros i kb Hk Ht.
  assert (Hh : handler i BtnPepper =
               match pepper_value i with
               | None => Err "Pepper no proporcionado. Pon `PEPPER` en st.secrets o usa el campo demo en la sidebar."
               | Some p => Invoke (CallWithPepper (text_input i) p (alg i))
               end).
  { unfold handler. rewrite Hk, truthy_true by exact Ht. reflexivity. }
  split.
  - intros Hp. unfold run. rewrite Hh, Hp. reflexivity.
  - intros Hs. assert (Hp : pepper_value i = Some []).
    { unfold pepper_value. rewrite Hs. reflexivity. }
    rewrite Hp in Hh. split; [exact Hh|].
    unfold run. rewrite Hh. simpl.
    destruct (alg_resolves i) as [a ->].
    rewrite (proj2 (with_pepper_missing (text_input i) a)). reflexivity.
Qed.

End Pepper.

(** The three ways to lack a pepper: no secret and an empty demo field, an
    empty secret, and no text at all. *)
Example pepper_runs :
  run toy_digest counting (with_text (lit "hi") fresh) BtnPepper
  = Err "Pepper no proporcionado. Pon `PEPPER` en st.secrets o usa el campo demo en la sidebar."
  /\ run toy_digest counting
       (with_text (lit "hi") (with_secrets (one_secret "PEPPER" []) fresh)) BtnPepper
     = Invoke (inl InvalidArgument)
  /\ run toy_digest counting fresh BtnPepper = Warn "Introduce texto antes.".
Proof. repeat split; vm_compute; reflexivity. Qed.

End PepperFacts.

(** ** Salting *)

Module SaltFacts.
Import Py HashUtils App Examples AlgorithmFacts.

Lemma hex_length (bs : bytes) : length (hex bs) = (2 * length bs)%nat.
Proof. induction bs as [|b r IH]; simpl; [reflexivity | rewrite IH; lia]. Qed.

Lemma generate_salt_length (entropy : nat -> byte) (n : nat) (salt : bytes) :
  generate_salt entropy n = inr salt -> length salt = n.
Proof.
  unfold generate_salt.
  destruct ((4 <=? n)%nat && (n <=? 64)%nat); [|discriminate].
  intros [= <-]. rewrite length_map, length_seq. reflexivity.
Qed.

Lemma normalize_salt_absent (entropy : nat -> byte) :
  normalize_salt entropy None = inr (map entropy (seq 0 DEFAULT_SALT_LEN)).
Proof. reflexivity. Qed.

(** The block behind the salt button never reads the length widget. *)
Lemma salt_len_ignored (i : inputs) (n : N) (b : button) :
  handler (with_salt_len n i) b = handler i b.
Proof. reflexivity. Qed.

Lemma handler_salt (i : inputs) (c : call) :
  handler i BtnSalt = Invoke c ->
  c = CallWithSalt (text_input i) (or_None (salt_text i)) (alg i).
Proof.
  unfold handler. destruct (hmac_key_bytes i); [discriminate|].
  destruct (truthy (text_input i)); [congruence | discriminate].
Qed.

Section Salt.

Variable H : AlgorithmId -> bytes -> bytes.
Variable entropy : nat -> byte.

Lemma with_salt_absent (text : str) (a : AlgorithmId) (data : bytes) :
  encode_utf8 text = inr data ->
  with_salt H entropy text None (alg_name a)
  = inr (hex (map entropy (seq 0 DEFAULT_SALT_LEN)),
         hex (H a (map entropy (seq 0 DEFAULT_SALT_LEN) ++ data))).
Proof.
  intros He. unfold with_salt, apply_salt, bind, lift.
  rewrite resolve_name, normalize_salt_absent, He. reflexivity.
Qed.

(** C6, at the failing input: with 32 chosen in the length widget and no
    salt typed in, the run shows a salt of 32 hexadecimal characters, the
    16 bytes of the default, and the run is the same for every value of
    the widget. *)
Theorem salt_len_not_honored :
  (exists salt_hex digest,
     run H entropy (with_salt_len 32 (with_text (lit "abc") fresh)) BtnSalt
     = Invoke (inr (VPair salt_hex digest))
     /\ length salt_hex = 32%nat
     /\ length salt_hex <> (2 * 32)%nat)
  /\ (forall i n b,
        run H entropy (with_salt_len n i) b = run H entropy i b).
Proof.
  split.
  - eexists _, _. split; [|split].
    + assert (Hh : handler (with_salt_len 32 (with_text (lit "abc") fresh)) BtnSalt
                   = Invoke (CallWithSalt (lit "abc") None (alg_name sha256)))
        by reflexivity.
      unfold run. rewrite Hh. cbn [step_map exec].
      rewrite (with_salt_absent (lit "abc") sha256 ["a"%byte; "b"%byte; "c"%byte])
        by reflexivity.
      reflexivity.
    + cbn [fst]. rewrite hex_length, length_map, length_seq. reflexivity.
    + cbn [fst]. rewrite hex_length, length_map, length_seq. discriminate.
  - intros i n b. unfold run. rewrite salt_len_ignored. reflexivity.
Qed.



End Salt.



(** The salt button with 16, 32 and 64 in the length widget: the same
    sixteen bytes each time. *)
Example salt_runs :
  run toy_digest counting (with_salt_len 32 (with_text (lit "abc") fresh)) BtnSalt
  = run toy_digest counting (with_salt_len 16 (with_text (lit "abc") fresh)) BtnSalt
  /\ run toy_digest counting (with_salt_len 64 (with_text (lit "abc") fresh)) BtnSalt
     = Invoke (inr (VPair (lit "000102030405060708090a0b0c0d0e0f")
                      (lit "000102030405060708090a0b0c0d0e0f61626300000000000000000000000000"))).
Proof. split; vm_compute; reflexivity. Qed.

End SaltFacts.

(** ** The calls and the closed set of algorithms *)

Module CallFacts.
Import Py HashUtils App Examples AlgorithmFacts.

(** C9: the algorithm identifier of every call the script makes is one of
    the four entries of [algorithms], [resolve] accepts it, and the call
    does not fail with [UnsupportedAlgorithm]. *)
Theorem algorithm_in_closed_set
  (H : AlgorithmId -> bytes -> bytes) (entropy : nat -> byte)
  (i : inputs) (b : button) (c : call) :
  handler i b = Invoke c ->
  (forall id, call_alg c = Some id ->
     In id algorithms /\ exists a, resolve id = inr a)
  /\ exec H entropy c <> inl UnsupportedAlgorithm.
Proof.
  intros Hh.
  assert (Hid : forall id, call_alg c = Some id -> id = alg i).
  { intros id. apply (handler_call_alg i b c id Hh). }
  split.
  - intros id Hc. rewrite (Hid id Hc). split; [apply alg_listed|].
    destruct (alg_resolves i) as [a ->]. exists a. apply resolve_name.
  - apply exec_supported. intros id Hc. rewrite (Hid id Hc). apply alg_resolves.
Qed.

(** The file button on a three-byte upload with the last algorithm
    selected. *)
Lemma algorithm_in_closed_set_witness :
  exec toy_digest counting
    (CallHashFile ["a"%byte; "b"%byte; "c"%byte] (lit "blake2b") CHUNK_SIZE)
  <> inl UnsupportedAlgorithm.
Proof.
  refine (proj2 (algorithm_in_closed_set toy_digest counting
            {| secrets := ∅;
               pepper_demo_input := [];
               hmac_key_demo_input := [];
               alg_choice := 3;
               text_input := [];
               uploaded := Some {| name := lit "f.txt";
                                   content := ["a"%byte; "b"%byte; "c"%byte] |};
               salt_len := 16;
               salt_text := [];
               h1 := [];
               h2 := [] |}
            BtnHashFile _ _)).
  reflexivity.
Defined.

End CallFacts.

(** ** Comparing two digests *)

Module CompareFacts.
Import Py HashUtils App Examples AlgorithmFacts ComparatorFacts StripFacts.

(** C10: in a run that gets past the key decoding, with both fields
    filled in, the compare block hands [compare_hashes] the stripped
    inputs, so the result is that of the trimmed strings, and two inputs
    that are one string with whitespace around it are reported as
    matching. *)
Theorem compare_after_strip
  (H : AlgorithmId -> bytes -> bytes) (entropy : nat -> byte)
  (i : inputs) (kb : option bytes) :
  hmac_key_bytes i = inr kb ->
  h1 i <> [] ->
  h2 i <> [] ->
  handler i BtnCompare = Invoke (CallCompare (strip (h1 i)) (strip (h2 i)))
  /\ run H entropy i BtnCompare
     = Invoke (inr (VBool (compare_hashes (strip (h1 i)) (strip (h2 i)))))
  /\ (forall l1 r1 l2 r2 c,
        blank l1 -> blank r1 -> blank l2 -> blank r2 ->
        h1 i = l1 ++ c ++ r1 ->
        h2 i = l2 ++ c ++ r2 ->
        run H entropy i BtnCompare = Invoke (inr (VBool true))).
Proof.
  intros Hk Ha Hb.
  assert (Hh : handler i BtnCompare
               = Invoke (CallCompare (strip (h1 i)) (strip (h2 i)))).
  { unfold handler. rewrite Hk, !truthy_true by assumption. reflexivity. }
  assert (Hr : run H entropy i BtnCompare
               = Invoke (inr (VBool (compare_hashes (strip (h1 i)) (strip (h2 i)))))).
  { unfold run. rewrite Hh. reflexivity. }
  repeat split; auto.
  intros l1 r1 l2 r2 c Hl1 Hr1 Hl2 Hr2 E1 E2.
  rewrite Hr, E1, E2, !strip_surround by assumption.
  do 3 f_equal. apply compare_hashes_eq. reflexivity.
Qed.

(** A digest pasted with a leading blank and one pasted with a trailing
    newline. *)
Lemma compare_after_strip_witness :
  run toy_digest counting
    (with_hashes (32 :: lit "ab12") (lit "ab12" ++ [10]) fresh) BtnCompare
  = Invoke (inr (VBool true)).
Proof.
  refine (proj2 (proj2 (compare_after_strip toy_digest counting
            (with_hashes (32 :: lit "ab12") (lit "ab12" ++ [10]) fresh)
            None _ _ _)) [32] [] [] [10] (lit "ab12") _ _ _ _ _ _);
    try reflexivity; discriminate.
Defined.

End CompareFacts.

(** ** The guards of the blocks *)

Module GuardFacts.
Import Py HashUtils App Examples Page AlgorithmFacts.

Lemma truthy_false (s : str) : truthy s = false <-> s = [].
Proof. destruct s; simpl; split; congruence. Qed.

Lemma key_value_None (i : inputs) :
  hmac_key_value i = None
  <-> hmac_key_secret i = None /\ hmac_key_demo_input i = [].
Proof.
  unfold hmac_key_value, hmac_key_demo, demo_or_None, or_None.
  destruct (hmac_key_secret i) as [s|].
  - split; [discriminate | intros [E _]; discriminate].
  - destruct (hmac_key_demo_input i) as [|c r]; simpl; split;
      try tauto; try discriminate. intros [_ E]. discriminate.
Qed.

Lemma pepper_value_None (i : inputs) :
  pepper_value i = None
  <-> pepper_secret i = None /\ pepper_demo_input i = [].
Proof.
  unfold pepper_value, pepper_demo, demo_or_None, or_None.
  destruct (pepper_secret i) as [s|].
  - split; [discriminate | intros [E _]; discriminate].
  - destruct (pepper_demo_input i) as [|c r]; simpl; split;
      try tauto; try discriminate. intros [_ E]. discriminate.
Qed.

Lemma key_bytes_None (i : inputs) :
  hmac_key_bytes i = inr None <-> hmac_key_value i = None.
Proof.
  unfold hmac_key_bytes. destruct (hmac_key_value i) as [v|]; [|tauto].
  destruct (b64decode v); [destruct (encode_utf8 v)|]; split; discriminate.
Qed.

(** X1: whatever button is pressed, a call that carries a text carries the
    text area's content as it is, and that content is not empty. *)
Theorem text_guard (i : inputs) (b : button) (c : call) (t : str) :
  handler i b = Invoke c ->
  call_text c = Some t ->
  t = text_input i /\ t <> [].
Proof.
  unfold handler. destruct (hmac_key_bytes i) as [e|kb]; [discriminate|].
  destruct b; intros Hh Hc;
    repeat match type of Hh with
           | context [if truthy ?x then _ else _] =>
             let E := fresh "E" in destruct (truthy x) eqn:E
           | context [if ?x then _ else _] => destruct x
           | context [match ?x with _ => _ end] => destruct x
           end;
    try discriminate; injection Hh as <-; simpl in Hc;
    try discriminate; injection Hc as <-;
    split; try reflexivity; apply truthy_inv; assumption.
Qed.

Lemma text_guard_witness :
  lit "hi" = text_input (with_text (lit "hi") fresh) /\ lit "hi" <> [].
Proof.
  apply (text_guard (with_text (lit "hi") fresh) BtnSalt
           (CallWithSalt (lit "hi") None (lit "sha256")) (lit "hi"));
    reflexivity.
Defined.

(** X2: with an empty text area the four text blocks only warn: none of
    them makes a call or reports a missing pepper or key. *)
Theorem empty_text_warns (i : inputs) (kb : option bytes) (b : button) :
  hmac_key_bytes i = inr kb ->
  text_input i = [] ->
  In b [BtnHashText; BtnSalt; BtnPepper; BtnHmac] ->
  exists msg, handler i b = Warn msg.
Proof.
  intros Hk Ht Hb. unfold handler. rewrite Hk, Ht. simpl.
  destruct Hb as [<-|[<-|[<-|[<-|[]]]]]; eauto.
Qed.

Lemma empty_text_warns_witness :
  exists msg,
    handler (with_secrets (one_secret "PEPPER" (lit "p")) fresh) BtnPepper
    = Warn msg.
Proof.
  apply (empty_text_warns (with_secrets (one_secret "PEPPER" (lit "p")) fresh)
           None BtnPepper).
  - reflexivity.
  - reflexivity.
  - simpl. auto.
Defined.

(** X3: with a file uploaded, the file button leads to a call exactly when
    the file has at most [max_size_bytes] bytes; the call then carries the
    whole content, the selected algorithm and [CHUNK_SIZE]; a larger file
    is answered by the error message. *)
Theorem file_size_guard (i : inputs) (kb : option bytes) (u : upload) :
  hmac_key_bytes i = inr kb ->
  uploaded i = Some u ->
  ((size u <= max_size_bytes)%nat ->
     handler i BtnHashFile
     = Invoke (CallHashFile (content u) (alg i) CHUNK_SIZE))
  /\ ((max_size_bytes < size u)%nat ->
        handler i BtnHashFile = Err "Archivo muy grande (> 10485760 bytes). Ajusta límite en el código si lo necesitas.")
  /\ (forall c, handler i BtnHashFile = Invoke c ->
        (size u <= max_size_bytes)%nat
        /\ c = CallHashFile (content u) (alg i) CHUNK_SIZE).
Proof.
  intros Hk Hu. unfold handler. rewrite Hk, Hu.
  destruct (Nat.ltb_spec max_size_bytes (size u)) as [Hlt|Hle].
  - repeat split; try discriminate; try lia.
  - repeat split; try lia; try congruence.
Qed.

Lemma file_size_guard_witness :
  handler (with_upload (Some {| name := lit "f"; content := [x00] |}) fresh)
    BtnHashFile
  = Invoke (CallHashFile [x00] (lit "sha256") CHUNK_SIZE).
Proof.
  refine (proj1 (file_size_guard
            (with_upload (Some {| name := lit "f"; content := [x00] |}) fresh)
            None {| name := lit "f"; content := [x00] |} _ _) _).
  - reflexivity.
  - reflexivity.
  - unfold size, max_size_bytes. simpl. lia.
Defined.

(** X4: the HMAC block reports a missing key exactly when a text is there,
    the store has no HMAC_KEY and the demo field is empty. *)
Theorem missing_key_reported (i : inputs) (msg : string) :
  handler i BtnHmac = Err msg
  <-> text_input i <> [] /\ hmac_key_secret i = None
      /\ hmac_key_demo_input i = []
      /\ msg = "Clave HMAC no proporcionada. Pon `HMAC_KEY` en st.secrets o usa el campo demo."%string.
Proof.
  unfold handler. split.
  - destruct (hmac_key_bytes i) as [e|[k|]] eqn:Hk; try discriminate;
      destruct (truthy (text_input i)) eqn:Ht; try discriminate.
    intros [= <-]. apply key_bytes_None, key_value_None in Hk.
    destruct Hk. auto using truthy_inv.
  - intros (Ht & Hs & Hd & ->).
    assert (Hk : hmac_key_bytes i = inr None)
      by (apply key_bytes_None, key_value_None; auto).
    rewrite Hk, truthy_true by exact Ht. reflexivity.
Qed.

(** X5: in a run that gets past the key decoding, the pepper block reports
    a missing pepper exactly when a text is there, the store has no PEPPER
    and the demo field is empty. *)
Theorem missing_pepper_reported (i : inputs) (kb : option bytes) (msg : string) :
  hmac_key_bytes i = inr kb ->
  (handler i BtnPepper = Err msg
   <-> text_input i <> [] /\ pepper_secret i = None
       /\ pepper_demo_input i = []
       /\ msg = "Pepper no proporcionado. Pon `PEPPER` en st.secrets o usa el campo demo en la sidebar."%string).
Proof.
  intros Hk. unfold handler. rewrite Hk. split.
  - destruct (truthy (text_input i)) eqn:Ht; try discriminate.
    destruct (pepper_value i) eqn:Hp; try discriminate.
    intros [= <-]. apply pepper_value_None in Hp. destruct Hp.
    auto using truthy_inv.
  - intros (Ht & Hs & Hd & ->).
    assert (Hp : pepper_value i = None) by (apply pepper_value_None; auto).
    rewrite Hp, truthy_true by exact Ht. reflexivity.
Qed.

Lemma missing_pepper_reported_witness :
  handler (with_text (lit "hi") fresh) BtnPepper = Err "Pepper no proporcionado. Pon `PEPPER` en st.secrets o usa el campo demo en la sidebar.".
Proof.
  apply (missing_pepper_reported (with_text (lit "hi") fresh) None
           "Pepper no proporcionado. Pon `PEPPER` en st.secrets o usa el campo demo en la sidebar." eq_refl).
  repeat split. discriminate.
Defined.

End GuardFacts.

(** ** What each block reads *)

Module FrameFacts.
Import Py HashUtils App Examples Page AlgorithmFacts.

Lemma handler_secrets_ext (i : inputs) (m : gmap string str) (b : button) :
  m !! "PEPPER"%string = secrets i !! "PEPPER"%string ->
  m !! "HMAC_KEY"%string = secrets i !! "HMAC_KEY"%string ->
  handler (with_secrets m i) b = handler i b.
Proof.
  intros Hp Hk.
  unfold handler, hmac_key_bytes, hmac_key_value, hmac_key_demo, pepper_value,
    pepper_demo, pepper_secret, hmac_key_secret. simpl.
  rewrite Hp, Hk. reflexivity.
Qed.

(** X6: the script reads two entries of the secret store and no other:
    adding, changing or removing any other entry changes no run. *)
Theorem other_secrets_unread (i : inputs) (k : string) (v : str) (b : button) :
  k <> "PEPPER"%string ->
  k <> "HMAC_KEY"%string ->
  handler (with_secrets (<[k := v]> (secrets i)) i) b = handler i b
  /\ handler (with_secrets (delete k (secrets i)) i) b = handler i b.
Proof.
  intros Hp Hk. split; apply handler_secrets_ext;
    rewrite ?lookup_insert_ne, ?lookup_delete_ne by congruence; reflexivity.
Qed.

Lemma other_secrets_unread_witness :
  handler (with_secrets (<["TOKEN"%string := lit "t"]> (secrets fresh)) fresh)
    BtnHmac
  = handler fresh BtnHmac.
Proof.
  refine (proj1 (other_secrets_unread fresh "TOKEN" (lit "t") BtnHmac _ _));
    discriminate.
Defined.

(** X7: the pepper is read by the pepper block alone: with the HMAC_KEY
    entry untouched, another PEPPER secret or demo pepper changes the run
    of no other button. *)
Theorem pepper_read_by_pepper_block
  (i : inputs) (m : gmap string str) (p : str) (b : button) :
  m !! "HMAC_KEY"%string = secrets i !! "HMAC_KEY"%string ->
  b <> BtnPepper ->
  handler (with_pepper_demo p (with_secrets m i)) b = handler i b.
Proof.
  intros Hk Hb.
  unfold handler, hmac_key_bytes, hmac_key_value, hmac_key_demo,
    hmac_key_secret. simpl. rewrite Hk.
  destruct b; try reflexivity. contradiction.
Qed.

Lemma pepper_read_by_pepper_block_witness :
  handler (with_pepper_demo (lit "p")
             (with_secrets (one_secret "PEPPER" (lit "s"))
                (with_text (lit "hi") fresh))) BtnSalt
  = handler (with_text (lit "hi") fresh) BtnSalt.
Proof.
  apply (pepper_read_by_pepper_block (with_text (lit "hi") fresh)
           (one_secret "PEPPER" (lit "s")) (lit "p") BtnSalt).
  - reflexivity.
  - discriminate.
Defined.

(** X8: the key is read by the HMAC block alone, but for the decoding at
    the top of the script: with the PEPPER entry untouched, and both runs
    getting past the decoding, another HMAC_KEY secret or demo key changes
    the run of no other button. *)
Theorem key_read_by_hmac_block
  (i : inputs) (m : gmap string str) (k : str) (b : button)
  (kb kb' : option bytes) :
  m !! "PEPPER"%string = secrets i !! "PEPPER"%string ->
  hmac_key_bytes i = inr kb ->
  hmac_key_bytes (with_key_demo k (with_secrets m i)) = inr kb' ->
  b <> BtnHmac ->
  handler (with_key_demo k (with_secrets m i)) b = handler i b.
Proof.
  intros Hp Hk Hk' Hb. unfold handler. rewrite Hk, Hk'.
  unfold pepper_value, pepper_demo, pepper_secret. simpl. rewrite Hp.
  destruct b; try reflexivity. contradiction.
Qed.

Lemma key_read_by_hmac_block_witness :
  handler (with_key_demo (lit "k")
             (with_secrets (one_secret "HMAC_KEY" (lit "abcd"))
                (with_text (lit "hi") fresh))) BtnHashText
  = handler (with_text (lit "hi") fresh) BtnHashText.
Proof.
  apply (key_read_by_hmac_block (with_text (lit "hi") fresh)
           (one_secret "HMAC_KEY" (lit "abcd")) (lit "k") BtnHashText
           None (Some ["i"%byte; "183"%byte; "029"%byte])).
  - reflexivity.
  - reflexivity.
  - reflexivity.
  - discriminate.
Defined.

End FrameFacts.

(** ** The CSV text of the file block *)

Module CsvFacts.
Import Py HashUtils App Examples Page AlgorithmFacts.

Lemma split_on_nonempty (sep : N) (s : str) : split_on sep s <> [].
Proof.
  induction s as [|c r IH]; simpl; [discriminate|].
  destruct (c =? sep); [discriminate|].
  destruct (split_on sep r); [contradiction | discriminate].
Qed.

(** A field without the separator, then the separator: the field is split
    off as it is. *)
Lemma split_on_field (sep : N) (f r : str) :
  ~ In sep f -> split_on sep (f ++ sep :: r) = f :: split_on sep r.
Proof.
  induction f as [|c f IH]; simpl; intros Hf.
  - rewrite N.eqb_refl. reflexivity.
  - destruct (N.eqb_spec c sep) as [->|_]; [tauto|].
    rewrite IH by tauto. reflexivity.
Qed.

Lemma split_on_last (sep : N) (f : str) :
  ~ In sep f -> split_on sep f = [f].
Proof.
  induction f as [|c f IH]; simpl; intros Hf; [reflexivity|].
  destruct (N.eqb_spec c sep) as [->|_]; [tauto|].
  rewrite IH by tauto. reflexivity.
Qed.

Lemma split_on_length (sep : N) (s : str) :
  length (split_on sep s) = S (count_occ N.eq_dec s sep).
Proof.
  induction s as [|c r IH]; simpl; [reflexivity|].
  destruct (N.eqb_spec c sep) as [->|Hne].
  - destruct (N.eq_dec sep sep); [|contradiction]. simpl. rewrite IH. reflexivity.
  - destruct (N.eq_dec c sep); [contradiction|].
    destruct (split_on sep r) eqn:Hs; [destruct (split_on_nonempty sep r Hs)|].
    simpl in *. exact IH.
Qed.

Lemma hex_digit_sepfree (n : N) : hex_digit n <> 44 /\ hex_digit n <> 10.
Proof.
  unfold hex_digit. destruct (N.ltb_spec n 10); split; lia.
Qed.

Lemma hex_sepfree (bs : bytes) : sepfree (hex bs).
Proof.
  unfold sepfree. induction bs as [|b r [IH1 IH2]]; simpl; [tauto|].
  pose proof (hex_digit_sepfree (Byte.to_N b / 16)) as [A1 A2].
  pose proof (hex_digit_sepfree (Byte.to_N b mod 16)) as [B1 B2].
  split; intros [E|[E|E]]; auto.
Qed.

Lemma alg_sepfree (i : inputs) : sepfree (alg i).
Proof.
  destruct (alg_cases i) as [E|[E|[E|E]]]; rewrite E; unfold sepfree;
    vm_compute; split; intros Hin;
    repeat match goal with
           | H : _ \/ _ |- _ => destruct H as [H|H]
           end; try discriminate; try contradiction.
Qed.

Lemma csv_row_fields (file_name alg digest : str) :
  ~ In 44 file_name -> ~ In 44 alg -> ~ In 44 digest ->
  split_on 44 (csv_row file_name alg digest) = [file_name; alg; digest].
Proof.
  intros Hn Ha Hd. unfold csv_row. simpl.
  rewrite (split_on_field 44 file_name) by exact Hn.
  rewrite (split_on_field 44 alg) by exact Ha.
  rewrite split_on_last by exact Hd. reflexivity.
Qed.

Lemma csv_str_lines (file_name alg digest : str) :
  ~ In 10 (csv_row file_name alg digest) ->
  split_on 10 (csv_str file_name alg digest)
  = [csv_header; csv_row file_name alg digest; []].
Proof.
  intros Hr. unfold csv_str.
  rewrite <- !app_assoc. simpl ([10] ++ _).
  rewrite (split_on_field 10 csv_header)
    by (vm_compute; intros Hin;
        repeat match goal with
               | H : _ \/ _ |- _ => destruct H as [H|H]
               end; try discriminate; contradiction).
  rewrite (split_on_field 10 (csv_row file_name alg digest)) by exact Hr.
  reflexivity.
Qed.

Lemma file_block_csv (H : AlgorithmId -> bytes -> bytes)
  (i : inputs) (digest csv : str) :
  file_block H i = Invoke (inr (digest, csv)) ->
  exists u,
    uploaded i = Some u
    /\ csv = csv_str (name u) (alg i) digest
    /\ sepfree digest.
Proof.
  unfold file_block. destruct (hmac_key_bytes i); [discriminate|].
  destruct (uploaded i) as [u|]; [|discriminate].
  destruct (max_size_bytes <? size u)%nat; [discriminate|].
  unfold hash_file_chunked, bind. destruct (resolve (alg i)); [discriminate|].
  destruct (CHUNK_SIZE =? 0)%nat; [discriminate|].
  intros [= <- <-]. exists u. repeat split; try apply hex_sepfree.
Qed.

(** X9: when the name of the uploaded file has neither comma nor line
    feed, the CSV text of the file block reads back: split at line feeds
    it is the header, the data line and an empty rest, and the data line
    split at commas is the file name, the algorithm and the digest
    shown. *)
Theorem csv_reads_back (H : AlgorithmId -> bytes -> bytes)
  (i : inputs) (u : upload) (digest csv : str) :
  uploaded i = Some u ->
  file_block H i = Invoke (inr (digest, csv)) ->
  sepfree (name u) ->
  split_on 10 csv = [csv_header; csv_row (name u) (alg i) digest; []]
  /\ split_on 44 (csv_row (name u) (alg i) digest)
     = [name u; alg i; digest].
Proof.
  intros Hu Hf [Hn1 Hn2].
  destruct (file_block_csv H i digest csv Hf) as (u' & Hu' & -> & Hd1 & Hd2).
  rewrite Hu in Hu'. injection Hu' as <-.
  destruct (alg_sepfree i) as [Ha1 Ha2].
  split.
  - apply csv_str_lines. unfold csv_row.
    rewrite !in_app_iff. simpl. intros [?|[[?|[]]|[?|[[?|[]]|?]]]];
      try discriminate; tauto.
  - apply csv_row_fields; assumption.
Qed.

Lemma csv_reads_back_witness :
  split_on 44 (csv_row (lit "f.txt") (lit "sha256")
                 (lit "6100000000000000000000000000000000000000000000000000000000000000"))
  = [lit "f.txt"; lit "sha256";
     lit "6100000000000000000000000000000000000000000000000000000000000000"].
Proof.
  refine (proj2 (csv_reads_back toy_digest
            (with_upload (Some {| name := lit "f.txt"; content := ["a"%byte] |}) fresh)
            {| name := lit "f.txt"; content := ["a"%byte] |}
            (lit "6100000000000000000000000000000000000000000000000000000000000000")
            (csv_str (lit "f.txt") (lit "sha256")
               (lit "6100000000000000000000000000000000000000000000000000000000000000"))
            _ _ _)).
  - reflexivity.
  - vm_compute. reflexivity.
  - unfold sepfree. vm_compute. split; intros Hin;
      repeat match goal with
             | H : _ \/ _ |- _ => destruct H as [H|H]
             end; try discriminate; contradiction.
Defined.

(** X10: the file name is written into the CSV text as it is, without
    quoting: the data line of the file block has three fields plus one for
    every comma in the file name. *)
Theorem csv_name_unquoted (H : AlgorithmId -> bytes -> bytes)
  (i : inputs) (u : upload) (digest csv : str) :
  uploaded i = Some u ->
  file_block H i = Invoke (inr (digest, csv)) ->
  csv = csv_str (name u) (alg i) digest
  /\ length (split_on 44 (csv_row (name u) (alg i) digest))
     = (3 + count_occ N.eq_dec (name u) 44%N)%nat.
Proof.
  intros Hu Hf.
  destruct (file_block_csv H i digest csv Hf) as (u' & Hu' & -> & Hd1 & Hd2).
  rewrite Hu in Hu'. injection Hu' as <-.
  destruct (alg_sepfree i) as [Ha1 Ha2].
  split; [reflexivity|].
  rewrite split_on_length. unfold csv_row.
  rewrite !count_occ_app. simpl.
  rewrite (proj1 (count_occ_not_In N.eq_dec (alg i) 44) Ha1).
  rewrite (proj1 (count_occ_not_In N.eq_dec digest 44) Hd1).
  lia.
Qed.

Lemma csv_name_unquoted_witness :
  length (split_on 44 (csv_row (lit "a,b") (lit "sha256")
            (lit "6100000000000000000000000000000000000000000000000000000000000000")))
  = (3 + count_occ N.eq_dec (lit "a,b") 44%N)%nat.
Proof.
  refine (proj2 (csv_name_unquoted toy_digest
            (with_upload (Some {| name := lit "a,b"; content := ["a"%byte] |}) fresh)
            {| name := lit "a,b"; content := ["a"%byte] |}
            (lit "6100000000000000000000000000000000000000000000000000000000000000")
            (csv_str (lit "a,b") (lit "sha256")
               (lit "6100000000000000000000000000000000000000000000000000000000000000"))
            _ _)).
  - reflexivity.
  - vm_compute. reflexivity.
Defined.

End CsvFacts.

(** ** The decoding of a pasted key *)

Module Base64Facts.
Import Py HashUtils App Examples Page AlgorithmFacts KeyFacts.

(** What the HMAC block does with a key string whose decoding is known. *)
Lemma handler_hmac_key (i : inputs) (v : str) (k : bytes) :
  key_supplied i v ->
  text_input i <> [] ->
  decode_key v = inr k ->
  handler i BtnHmac = Invoke (CallHmac (text_input i) k (alg i)).
Proof.
  intros Hs Ht Hd. apply key_supplied_value in Hs.
  pose proof (hmac_key_bytes_decode i v Hs) as Hb. rewrite Hd in Hb.
  rewrite (handler_hmac i (Some k)); auto.
Qed.

Lemma isascii_false (v : str) (c : N) :
  In c v -> 128 <= c -> isascii v = false.
Proof.
  intros Hin Hc. unfold isascii.
  destruct (forallb (λ c0 : N, c0 <? 128) v) eqn:Hf; [|reflexivity].
  rewrite forallb_forall in Hf. specialize (Hf c Hin).
  apply N.ltb_lt in Hf. lia.
Qed.

(** X11: a key string with a character outside ASCII is never taken as
    base64: the HMAC call receives its UTF-8 encoding. *)
Theorem non_ascii_key_is_text (i : inputs) (v : str) (c : N) (k : bytes) :
  key_supplied i v ->
  text_input i <> [] ->
  In c v ->
  128 <= c ->
  encode_utf8 v = inr k ->
  b64decode v = inl ValueError
  /\ handler i BtnHmac = Invoke (CallHmac (text_input i) k (alg i)).
Proof.
  intros Hs Ht Hin Hc He.
  assert (Hd : b64decode v = inl ValueError).
  { unfold b64decode. rewrite (isascii_false v c Hin Hc). reflexivity. }
  split; [exact Hd|].
  apply (handler_hmac_key i v k Hs Ht). unfold decode_key. rewrite Hd. exact He.
Qed.

Lemma non_ascii_key_is_text_witness :
  b64decode [99; 108; 233; 115] = inl ValueError
  /\ handler (with_text (lit "hi") (with_key_demo [99; 108; 233; 115] fresh)) BtnHmac
     = Invoke (CallHmac (lit "hi")
                 ["c"%byte; "l"%byte; xc3; xa9; "s"%byte] (lit "sha256")).
Proof.
  apply (non_ascii_key_is_text
           (with_text (lit "hi") (with_key_demo [99; 108; 233; 115] fresh))
           [99; 108; 233; 115] 233).
  - right. repeat split. discriminate.
  - discriminate.
  - simpl. auto.
  - lia.
  - reflexivity.
Defined.

Lemma a2b_base64_skip (data : str) (l : N) (p : nat) :
  (forall c, In c data -> b64_value c = None) ->
  a2b_base64 data 0 l p = inr [].
Proof.
  revert l p. induction data as [|c r IH]; intros l p Hall; [reflexivity|].
  cbn [a2b_base64]. rewrite (Hall c) by (left; reflexivity).
  assert (Hr : forall l' p', a2b_base64 r 0 l' p' = inr [])
    by (intros; apply IH; intros; apply Hall; right; assumption).
  destruct (c =? 61); simpl; apply Hr.
Qed.

(** X12: an ASCII key string without a single character of the base64
    alphabet (blanks, punctuation, '=' signs, or nothing at all) decodes to
    no bytes: the HMAC call receives the empty key. *)
Theorem key_without_alphabet_is_empty (i : inputs) (v : str) :
  key_supplied i v ->
  text_input i <> [] ->
  isascii v = true ->
  (forall c, In c v -> b64_value c = None) ->
  handler i BtnHmac = Invoke (CallHmac (text_input i) [] (alg i)).
Proof.
  intros Hs Ht Ha Hall. apply (handler_hmac_key i v [] Hs Ht).
  unfold decode_key, b64decode. rewrite Ha, a2b_base64_skip by exact Hall.
  reflexivity.
Qed.

Lemma key_without_alphabet_is_empty_witness :
  handler (with_text (lit "hi") (with_key_demo (lit "-- ==") fresh)) BtnHmac
  = Invoke (CallHmac (lit "hi") [] (lit "sha256")).
Proof.
  apply (key_without_alphabet_is_empty
           (with_text (lit "hi") (with_key_demo (lit "-- ==") fresh))
           (lit "-- ==")).
  - right. repeat split. discriminate.
  - discriminate.
  - reflexivity.
  - intros c Hin. simpl in Hin.
    repeat match goal with
           | H : _ \/ _ |- _ => destruct H as [<-|H]
           end; try reflexivity; contradiction.
Defined.

Lemma a2b_base64_filter (data : str) (q : nat) (l : N) (p : nat) :
  a2b_base64 (filter (fun c => b64_keep c = true) data) q l p
  = a2b_base64 data q l p.
Proof.
  revert q l p. induction data as [|c r IH]; intros q l p; [reflexivity|].
  rewrite filter_cons. destruct (b64_keep c) eqn:Hk; case_decide; try congruence.
  - cbn [a2b_base64]. rewrite !IH.
    destruct (c =? 61); [reflexivity|].
    destruct (b64_value c); [|reflexivity].
    destruct q as [|[|[|q]]]; rewrite ?IH; reflexivity.
  - cbn [a2b_base64]. unfold b64_keep in Hk.
    apply orb_false_iff in Hk. destruct Hk as [-> Hv].
    destruct (b64_value c); [discriminate | apply IH].
Qed.

Lemma isascii_filter (f : N -> bool) (v : str) :
  isascii v = true -> isascii (filter (fun c => f c = true) v) = true.
Proof.
  unfold isascii. rewrite !forallb_forall. intros Ha c Hin.
  apply Ha. apply list_elem_of_In. apply list_elem_of_In in Hin.
  apply list_elem_of_filter in Hin. tauto.
Qed.

(** X13: characters outside the base64 alphabet are skipped by the
    decoding: when an ASCII key string decodes, the same string without
    such characters (blanks and line breaks pasted along, say) gives the
    HMAC call the same key. *)
Theorem stray_characters_ignored (i : inputs) (v : str) (k : bytes) :
  isascii v = true ->
  b64decode v = inr k ->
  key_supplied i (filter (fun c => b64_keep c = true) v) ->
  text_input i <> [] ->
  handler i BtnHmac = Invoke (CallHmac (text_input i) k (alg i)).
Proof.
  intros Ha Hd Hs Ht. apply (handler_hmac_key i _ k Hs Ht).
  unfold decode_key, b64decode in *.
  rewrite isascii_filter by exact Ha. rewrite Ha in Hd.
  rewrite a2b_base64_filter, Hd. reflexivity.
Qed.

Lemma stray_characters_ignored_witness :
  handler (with_text (lit "hi") (with_key_demo (lit "aGVsbG8=") fresh)) BtnHmac
  = Invoke (CallHmac (lit "hi")
              ["h"%byte; "e"%byte; "l"%byte; "l"%byte; "o"%byte] (lit "sha256")).
Proof.
  apply (stray_characters_ignored
           (with_text (lit "hi") (with_key_demo (lit "aGVsbG8=") fresh))
           (lit "aGVs" ++ [10; 32] ++ lit "bG8=")).
  - reflexivity.
  - reflexivity.
  - right. repeat split. discriminate.
  - discriminate.
Defined.

End Base64Facts.

(** ** Standard base64 text decodes to the bytes it stands for *)

Module Base64RoundTrip.
Import Py HashUtils App Examples Page AlgorithmFacts KeyFacts Base64Facts.

Lemma N_below (P : N -> Prop) (n : nat) :
  (forall k, (k < n)%nat -> P (N.of_nat k)) ->
  forall v, v < N.of_nat n -> P v.
Proof. intros HP v Hv. rewrite <- (N2Nat.id v). apply HP. lia. Qed.

Lemma b64_char_value (v : N) :
  v < 64 ->
  b64_value (b64_char v) = Some v /\ (b64_char v =? 61) = false
  /\ (b64_char v <? 128) = true.
Proof.
  revert v. apply (N_below _ 64). intros k Hk.
  do 64 (destruct k as [|k]; [vm_compute; auto|]). lia.
Qed.

Lemma sextet_hi (x y : N) :
  x < 4 -> y < 16 ->
  N.lor (N.shiftl x 4) y < 64
  /\ N.shiftr (N.lor (N.shiftl x 4) y) 4 = x
  /\ N.land (N.lor (N.shiftl x 4) y) 15 = y.
Proof.
  intros Hx. revert y.
  assert (Ex : x = 0 \/ x = 1 \/ x = 2 \/ x = 3) by lia.
  destruct Ex as [-> | [-> | [-> | -> ]]];
    (apply (N_below _ 16); intros k Hk;
     do 16 (destruct k as [|k]; [vm_compute; auto|]); lia).
Qed.

Lemma sextet_lo (x y : N) :
  x < 16 -> y < 4 ->
  N.lor (N.shiftl x 2) y < 64
  /\ N.shiftr (N.lor (N.shiftl x 2) y) 2 = x
  /\ N.land (N.lor (N.shiftl x 2) y) 3 = y.
Proof.
  intros Hx Hy. revert x Hx.
  assert (Ey : y = 0 \/ y = 1 \/ y = 2 \/ y = 3) by lia.
  destruct Ey as [-> | [-> | [-> | -> ]]];
    (apply (N_below _ 16); intros k Hk;
     do 16 (destruct k as [|k]; [vm_compute; auto|]); lia).
Qed.

Lemma byte_parts (b : byte) :
  N.shiftr (Byte.to_N b) 2 < 64
  /\ N.land (Byte.to_N b) 3 < 4
  /\ N.shiftr (Byte.to_N b) 4 < 16
  /\ N.land (Byte.to_N b) 15 < 16
  /\ N.shiftr (Byte.to_N b) 6 < 4
  /\ N.land (Byte.to_N b) 63 < 64.
Proof. destruct b; vm_compute; auto 10. Qed.

Lemma byte_joins (b : byte) :
  byte_of_N (N.lor (N.shiftl (N.shiftr (Byte.to_N b) 2) 2)
                   (N.land (Byte.to_N b) 3)) = b
  /\ byte_of_N (N.lor (N.shiftl (N.shiftr (Byte.to_N b) 4) 4)
                      (N.land (Byte.to_N b) 15)) = b
  /\ byte_of_N (N.lor (N.shiftl (N.shiftr (Byte.to_N b) 6) 6)
                      (N.land (Byte.to_N b) 63)) = b.
Proof. destruct b; vm_compute; auto. Qed.

(** One character of the alphabet, at each position of a group. *)
Lemma a2b_char (v : N) (rest : str) (q : nat) (l : N) (p : nat) :
  v < 64 ->
  a2b_base64 (b64_char v :: rest) q l p =
    match q with
    | 0%nat => a2b_base64 rest 1 v 0
    | 1%nat =>
      match a2b_base64 rest 2 (N.land v 15) 0 with
      | inl e => inl e
      | inr out => inr (byte_of_N (N.lor (N.shiftl l 2) (N.shiftr v 4)) :: out)
      end
    | 2%nat =>
      match a2b_base64 rest 3 (N.land v 3) 0 with
      | inl e => inl e
      | inr out => inr (byte_of_N (N.lor (N.shiftl l 4) (N.shiftr v 2)) :: out)
      end
    | _ =>
      match a2b_base64 rest 0 0 0 with
      | inl e => inl e
      | inr out => inr (byte_of_N (N.lor (N.shiftl l 6) v) :: out)
      end
    end.
Proof.
  intros Hv. destruct (b64_char_value v Hv) as (Hval & Hpad & _).
  cbn [a2b_base64]. rewrite Hpad, Hval. reflexivity.
Qed.

Lemma a2b_one (b1 : byte) :
  a2b_base64 (b64encode [b1]) 0 0 0 = inr [b1].
Proof. destruct b1; vm_compute; reflexivity. Qed.

Lemma a2b_two (b1 b2 : byte) :
  a2b_base64 (b64encode [b1; b2]) 0 0 0 = inr [b1; b2].
Proof.
  pose proof (byte_parts b1) as (A1 & A2 & _).
  pose proof (byte_parts b2) as (_ & _ & B3 & B4 & _).
  pose proof (byte_joins b1) as (J1 & _).
  pose proof (byte_joins b2) as (_ & J2 & _).
  destruct (sextet_hi _ _ A2 B3) as (S2 & S2hi & S2lo).
  assert (Z4 : (0 : N) < 4) by lia.
  destruct (sextet_lo _ _ B4 Z4) as (S3 & S3hi & _).
  rewrite N.lor_0_r in S3, S3hi.
  cbn [b64encode].
  rewrite a2b_char by exact A1. rewrite a2b_char by exact S2.
  rewrite a2b_char by exact S3.
  cbn [a2b_base64]. simpl (61 =? 61). simpl (2 <=? 3)%nat. simpl (4 <=? 3 + 1)%nat.
  cbv iota. rewrite S2hi, S2lo, S3hi, J1, J2. reflexivity.
Qed.

Lemma a2b_three (b1 b2 b3 : byte) (r : bytes) :
  a2b_base64 (b64encode (b1 :: b2 :: b3 :: r)) 0 0 0 =
    match a2b_base64 (b64encode r) 0 0 0 with
    | inl e => inl e
    | inr out => inr (b1 :: b2 :: b3 :: out)
    end.
Proof.
  pose proof (byte_parts b1) as (A1 & A2 & _).
  pose proof (byte_parts b2) as (_ & _ & B3 & B4 & _).
  pose proof (byte_parts b3) as (_ & _ & _ & _ & C5 & C6).
  pose proof (byte_joins b1) as (J1 & _).
  pose proof (byte_joins b2) as (_ & J2 & _).
  pose proof (byte_joins b3) as (_ & _ & J3).
  destruct (sextet_hi _ _ A2 B3) as (S2 & S2hi & S2lo).
  destruct (sextet_lo _ _ B4 C5) as (S3 & S3hi & S3lo).
  cbn [b64encode app].
  rewrite a2b_char by exact A1. rewrite a2b_char by exact S2.
  rewrite a2b_char by exact S3. rewrite a2b_char by exact C6.
  rewrite S2hi, S2lo, S3hi, S3lo, J1, J2, J3.
  destruct (a2b_base64 (b64encode r) 0 0 0); reflexivity.
Qed.

Lemma a2b_encode (bs : bytes) : a2b_base64 (b64encode bs) 0 0 0 = inr bs.
Proof.
  remember (length bs) as n eqn:Hn. revert bs Hn.
  induction n as [n IH] using lt_wf_ind. intros bs Hn.
  destruct bs as [|b1 [|b2 [|b3 r]]].
  - reflexivity.
  - apply a2b_one.
  - apply a2b_two.
  - rewrite a2b_three. rewrite (IH (length r)); [reflexivity| |reflexivity].
    subst n. simpl. lia.
Qed.

Lemma b64encode_ascii (bs : bytes) : isascii (b64encode bs) = true.
Proof.
  remember (length bs) as n eqn:Hn. revert bs Hn.
  induction n as [n IH] using lt_wf_ind. intros bs Hn.
  assert (Hc : forall v, v < 64 -> (b64_char v <? 128) = true)
    by (intros v Hv; apply (b64_char_value v Hv)).
  destruct bs as [|b1 [|b2 [|b3 r]]]; [reflexivity| | |].
  - pose proof (byte_parts b1) as (A1 & A2 & _).
    assert (Z16 : (0 : N) < 16) by lia.
    destruct (sextet_hi _ _ A2 Z16) as (S2 & _). rewrite N.lor_0_r in S2.
    unfold isascii. cbn [b64encode forallb]. rewrite !Hc by assumption. reflexivity.
  - pose proof (byte_parts b1) as (A1 & A2 & _).
    pose proof (byte_parts b2) as (_ & _ & B3 & B4 & _).
    destruct (sextet_hi _ _ A2 B3) as (S2 & _).
    assert (Z4 : (0 : N) < 4) by lia.
    destruct (sextet_lo _ _ B4 Z4) as (S3 & _). rewrite N.lor_0_r in S3.
    unfold isascii. cbn [b64encode forallb]. rewrite !Hc by assumption. reflexivity.
  - pose proof (byte_parts b1) as (A1 & A2 & _).
    pose proof (byte_parts b2) as (_ & _ & B3 & B4 & _).
    pose proof (byte_parts b3) as (_ & _ & _ & _ & C5 & C6).
    destruct (sextet_hi _ _ A2 B3) as (S2 & _).
    destruct (sextet_lo _ _ B4 C5) as (S3 & _).
    unfold isascii in *. cbn [b64encode app forallb].
    rewrite !Hc by assumption. simpl. apply (IH (length r)); [|reflexivity].
    subst n. simpl. lia.
Qed.

Lemma b64decode_encode (bs : bytes) : b64decode (b64encode bs) = inr bs.
Proof. unfold b64decode. rewrite b64encode_ascii. apply a2b_encode. Qed.

(** X14: a key pasted as the standard, padded base64 text of a byte
    sequence reaches the HMAC call as exactly that byte sequence. *)
Theorem base64_key_round_trip (i : inputs) (bs : bytes) :
  key_supplied i (b64encode bs) ->
  text_input i <> [] ->
  b64decode (b64encode bs) = inr bs
  /\ handler i BtnHmac = Invoke (CallHmac (text_input i) bs (alg i)).
Proof.
  intros Hs Ht. split; [apply b64decode_encode|].
  apply (handler_hmac_key i _ bs Hs Ht).
  unfold decode_key. rewrite b64decode_encode. reflexivity.
Qed.

Lemma base64_key_round_trip_witness :
  handler (with_text (lit "hi")
             (with_secrets (one_secret "HMAC_KEY" (lit "AP8QIA==")) fresh)) BtnHmac
  = Invoke (CallHmac (lit "hi") [x00; xff; x10; x20] (lit "sha256")).
Proof.
  refine (proj2 (base64_key_round_trip
            (with_text (lit "hi")
               (with_secrets (one_secret "HMAC_KEY" (lit "AP8QIA==")) fresh))
            [x00; xff; x10; x20] _ _)).
  - left. reflexivity.
  - discriminate.
Defined.

End Base64RoundTrip.

(** ** Text keys that look like base64, and keys that stop the script *)

Module KeyEdgeFacts.
Import Py HashUtils App Examples Page AlgorithmFacts KeyFacts Base64Facts.

Lemma b64_value_ascii (c v : N) :
  b64_value c = Some v -> (c <? 128) = true /\ (c =? 61) = false.
Proof.
  unfold b64_value.
  destruct (N.leb_spec 65 c), (N.leb_spec c 90); simpl;
    try (intros _; split; [apply N.ltb_lt | apply N.eqb_neq]; lia).
  all: destruct (N.leb_spec 97 c), (N.leb_spec c 122); simpl;
    try (intros _; split; [apply N.ltb_lt | apply N.eqb_neq]; lia).
  all: destruct (N.leb_spec 48 c), (N.leb_spec c 57); simpl;
    try (intros _; split; [apply N.ltb_lt | apply N.eqb_neq]; lia).
  all: destruct (N.eqb_spec c 43); [intros _; subst; split; reflexivity|].
  all: destruct (N.eqb_spec c 47); [intros _; subst; split; reflexivity|].
  all: discriminate.
Qed.

(** Bytes already produced for the group the decoder is in. *)
Lemma a2b_alphabet (data : str) (q : nat) (l : N) (p m : nat) :
  (forall c, In c data -> b64_value c <> None) ->
  (q < 4)%nat ->
  (q + length data = 4 * m)%nat ->
  exists out,
    a2b_base64 data q l p = inr out
    /\ (length out + Nat.pred q = 3 * m)%nat.
Proof.
  revert q l p m. induction data as [|c r IH]; intros q l p m Hall Hq Hm.
  - simpl in Hm. assert (q = 0%nat) by lia. subst q.
    exists []. split; [reflexivity | simpl; lia].
  - assert (Hr : forall c', In c' r -> b64_value c' <> None)
      by (intros; apply Hall; right; assumption).
    destruct (b64_value c) as [v|] eqn:Hv;
      [|exfalso; apply (Hall c); [left; reflexivity | exact Hv]].
    destruct (b64_value_ascii c v Hv) as [_ Hpad].
    cbn [a2b_base64]. rewrite Hpad, Hv. simpl in Hm.
    destruct q as [|[|[|[|q]]]]; try lia.
    + destruct (IH 1%nat v 0%nat m Hr) as (out & -> & Hl); try lia.
      exists out. split; [reflexivity | simpl in *; lia].
    + destruct (IH 2%nat (N.land v 15) 0%nat m Hr) as (out & -> & Hl); try lia.
      eexists. split; [reflexivity | simpl in *; lia].
    + destruct (IH 3%nat (N.land v 3) 0%nat m Hr) as (out & -> & Hl); try lia.
      eexists. split; [reflexivity | simpl in *; lia].
    + destruct m as [|m]; [lia|].
      destruct (IH 0%nat 0 0%nat m Hr) as (out & -> & Hl); try lia.
      eexists. split; [reflexivity | simpl in *; lia].
Qed.

Lemma alphabet_ascii (v : str) :
  (forall c, In c v -> b64_value c <> None) -> isascii v = true.
Proof.
  intros Hall. unfold isascii. apply forallb_forall. intros c Hin.
  destruct (b64_value c) as [x|] eqn:Hx; [|destruct (Hall c Hin Hx)].
  apply (b64_value_ascii c x Hx).
Qed.

(** X15: a key meant as text is decoded all the same when it looks like
    base64: a key string of 4n letters, digits, '+' or '/' reaches the
    HMAC call as 3n decoded bytes, not as its own characters. *)
Theorem alphabet_key_is_decoded (i : inputs) (v : str) (n : nat) :
  key_supplied i v ->
  text_input i <> [] ->
  (forall c, In c v -> b64_value c <> None) ->
  length v = (4 * n)%nat ->
  exists k,
    b64decode v = inr k
    /\ length k = (3 * n)%nat
    /\ handler i BtnHmac = Invoke (CallHmac (text_input i) k (alg i)).
Proof.
  intros Hs Ht Hall Hlen.
  destruct (a2b_alphabet v 0 0 0 n Hall) as (k & Hk & Hl); [lia | exact Hlen|].
  assert (Hd : b64decode v = inr k)
    by (unfold b64decode; rewrite (alphabet_ascii v Hall); exact Hk).
  exists k. split; [exact Hd|]. split; [simpl in Hl; lia|].
  apply (handler_hmac_key i v k Hs Ht). unfold decode_key. rewrite Hd. reflexivity.
Qed.

Lemma alphabet_key_is_decoded_witness :
  exists k,
    b64decode (lit "password") = inr k
    /\ length k = (3 * 2)%nat
    /\ handler (with_text (lit "hi") (with_key_demo (lit "password") fresh)) BtnHmac
       = Invoke (CallHmac (lit "hi") k (lit "sha256")).
Proof.
  apply (alphabet_key_is_decoded
           (with_text (lit "hi") (with_key_demo (lit "password") fresh))
           (lit "password") 2).
  - right. repeat split. discriminate.
  - discriminate.
  - intros c Hin. simpl in Hin.
    repeat match goal with
           | H : _ \/ _ |- _ => destruct H as [<-|H]
           end; try discriminate; contradiction.
  - reflexivity.
Defined.

Lemma utf8_char_scalar (c : N) :
  scalar c = true -> exists bs, utf8_char c = inr bs.
Proof.
  unfold scalar, utf8_char. intros Hs.
  apply andb_true_iff in Hs. destruct Hs as [Hmax Hsur].
  apply negb_true_iff in Hsur.
  destruct (c <? 128); [eauto|]. destruct (c <? 2048); [eauto|].
  rewrite Hsur, Hmax. destruct (c <? 65536); eauto.
Qed.

Lemma utf8_char_fails (c : N) (e : exc) :
  utf8_char c = inl e -> scalar c = false /\ 128 <= c.
Proof.
  unfold scalar, utf8_char.
  destruct (N.ltb_spec c 128); [discriminate|].
  destruct (c <? 2048); [discriminate|].
  destruct (c <? 65536).
  - destruct ((55296 <=? c) && (c <=? 57343)); [|discriminate].
    intros _. rewrite andb_false_r. auto.
  - destruct (c <? 1114112); [discriminate|]. auto.
Qed.

Lemma encode_utf8_scalar (v : str) :
  forallb scalar v = true -> exists bs, encode_utf8 v = inr bs.
Proof.
  induction v as [|c r IH]; simpl; [eauto|].
  intros Hs. apply andb_true_iff in Hs. destruct Hs as [Hc Hr].
  destruct (utf8_char_scalar c Hc) as [bs ->].
  destruct (IH Hr) as [rest ->]. eauto.
Qed.

Lemma encode_utf8_fails (v : str) (e : exc) :
  encode_utf8 v = inl e ->
  exists c, In c v /\ scalar c = false /\ 128 <= c.
Proof.
  induction v as [|c r IH]; simpl; [discriminate|].
  destruct (utf8_char c) as [e'|bs] eqn:Hc.
  - intros _. apply utf8_char_fails in Hc. exists c. tauto.
  - destruct (encode_utf8 r) as [e'|rest]; [|discriminate].
    intros [= <-]. destruct (IH eq_refl) as (c' & Hin & Hs). exists c'. tauto.
Qed.

Lemma key_bytes_abort (i : inputs) (e : exc) :
  hmac_key_bytes i = inl e
  <-> exists v, key_supplied i v /\ encode_utf8 v = inl e.
Proof.
  split.
  - unfold hmac_key_bytes. destruct (hmac_key_value i) as [v|] eqn:Hv;
      [|discriminate].
    destruct (b64decode v); [|discriminate].
    destruct (encode_utf8 v) as [e'|] eqn:He; [|discriminate].
    intros [= <-]. exists v. split; [apply key_supplied_value|]; assumption.
  - intros (v & Hs & He). apply key_supplied_value in Hs.
    destruct (encode_utf8_fails v e He) as (c & Hin & _ & Hc).
    unfold hmac_key_bytes, b64decode. rewrite Hs, (isascii_false v c Hin Hc), He.
    reflexivity.
Qed.

Lemma utf8_char_error (c : N) (e : exc) :
  utf8_char c = inl e -> e = UnicodeEncodeError.
Proof.
  unfold utf8_char.
  repeat match goal with
         | |- context [if ?x then _ else _] => destruct x
         end; congruence.
Qed.

Lemma encode_utf8_error (v : str) (e : exc) :
  encode_utf8 v = inl e -> e = UnicodeEncodeError.
Proof.
  induction v as [|c r IH]; simpl; [discriminate|].
  destruct (utf8_char c) as [e'|bs] eqn:Hc.
  - intros [= <-]. eapply utf8_char_error; eauto.
  - destruct (encode_utf8 r) as [e'|rest]; [|discriminate].
    intros [= <-]. apply IH. reflexivity.
Qed.

(** X16: the decoding of a key string at the top of the script yields key
    bytes for every key string of Unicode scalar values, whatever
    [b64decode] raises being caught; it raises only on a key string with a
    code point that is no scalar value, and then it raises
    [UnicodeEncodeError], from the [encode] of the [except] branch. *)
Theorem key_decoding_defined (i : inputs) (v : str) :
  key_supplied i v ->
  (forallb scalar v = true ->
     exists k, decode_key v = inr k /\ hmac_key_bytes i = inr (Some k))
  /\ (forall e, hmac_key_bytes i = inl e ->
        e = UnicodeEncodeError
        /\ b64decode v = inl ValueError
        /\ exists c, In c v /\ scalar c = false).
Proof.
  intros Hs. pose proof Hs as Hv. apply key_supplied_value in Hv.
  pose proof (hmac_key_bytes_decode i v Hv) as Hb.
  split.
  - intros Hsc. destruct (encode_utf8_scalar v Hsc) as [bs Hbs].
    unfold decode_key in *. destruct (b64decode v) as [e'|k].
    + rewrite Hbs in Hb. eauto.
    + eauto.
  - intros e He. rewrite He in Hb. unfold decode_key in Hb.
    destruct (b64decode v) as [e'|k] eqn:Hd; [|discriminate].
    destruct (encode_utf8 v) as [e''|bs] eqn:Hu; [|discriminate].
    injection Hb as ->.
    destruct (encode_utf8_fails v e'' Hu) as (c & Hin & Hsc & Hc).
    split; [eapply encode_utf8_error; eauto|]. split; [|eauto].
    unfold b64decode in Hd. rewrite (isascii_false v c Hin Hc) in Hd.
    congruence.
Qed.

Lemma key_decoding_defined_witness :
  exists k,
    decode_key [99; 108; 233] = inr k
    /\ hmac_key_bytes (with_key_demo [99; 108; 233] fresh) = inr (Some k).
Proof.
  refine (proj1 (key_decoding_defined (with_key_demo [99; 108; 233] fresh)
                   [99; 108; 233] _) _).
  - right. repeat split. discriminate.
  - reflexivity.
Defined.

(** A lone surrogate as the demo key stops even the compare block. *)
Example surrogate_key_stops_compare :
  handler (with_hashes (lit "a") (lit "a") (with_key_demo [55296] fresh)) BtnCompare
  = Abort UnicodeEncodeError.
Proof. reflexivity. Qed.

End KeyEdgeFacts.

(** ** What [strip] removes, and when two fields match *)

Module TrimFacts.
Import Py HashUtils App Examples Page AlgorithmFacts ComparatorFacts StripFacts.

Lemma lstrip_split (s : str) : exists l, blank l /\ s = l ++ lstrip s.
Proof.
  induction s as [|c r (l & Hl & Hr)]; [exists []; split; reflexivity|].
  simpl. destruct (isspace c) eqn:Hc.
  - exists (c :: l). split.
    + unfold blank in *. simpl. rewrite Hc, Hl. reflexivity.
    + simpl. rewrite <- Hr. reflexivity.
  - exists []. split; reflexivity.
Qed.

Lemma rstrip_split (s : str) : exists r, blank r /\ s = rstrip s ++ r.
Proof.
  destruct (lstrip_split (rev s)) as (l & Hl & Hs).
  exists (rev l). split; [apply blank_rev, Hl|].
  unfold rstrip. rewrite <- rev_app_distr, <- Hs, rev_involutive. reflexivity.
Qed.

Lemma strip_split (s : str) :
  exists l r, blank l /\ blank r /\ s = l ++ strip s ++ r.
Proof.
  destruct (lstrip_split s) as (l & Hl & Hs).
  destruct (rstrip_split (lstrip s)) as (r & Hr & Ht).
  exists l, r. repeat split; auto. unfold strip. rewrite <- Ht. exact Hs.
Qed.

Lemma lstrip_head (s t : str) (c : N) : lstrip s = c :: t -> isspace c = false.
Proof.
  induction s as [|x r IH]; simpl; [discriminate|].
  destruct (isspace x) eqn:Hx; [exact IH|]. intros [= <- _]. exact Hx.
Qed.

Lemma rstrip_last (s t : str) (c : N) : rstrip s = t ++ [c] -> isspace c = false.
Proof.
  unfold rstrip. intros Hr.
  apply (f_equal (@rev N)) in Hr. rewrite rev_involutive, rev_app_distr in Hr.
  simpl in Hr. eapply lstrip_head; eauto.
Qed.

Lemma strip_head (s t : str) (c : N) : strip s = c :: t -> isspace c = false.
Proof.
  unfold strip. intros Hs.
  destruct (rstrip_split (lstrip s)) as (r & _ & Hr).
  rewrite Hs in Hr. simpl in Hr. eapply lstrip_head; eauto.
Qed.

Lemma strip_blank (s : str) : strip s = [] <-> blank s.
Proof.
  split.
  - intros Hs. destruct (strip_split s) as (l & r & Hl & Hr & E).
    rewrite Hs in E. rewrite E. apply blank_app; assumption.
  - intros Hb. rewrite <- (app_nil_r s).
    change (strip (s ++ [] ++ []) = []).
    rewrite strip_surround; [reflexivity | exact Hb | reflexivity].
Qed.

(** X17: [strip] removes whitespace at the two ends and nothing else: the
    string is a run of whitespace, then [strip]'s result, then a run of
    whitespace, and the result neither begins nor ends with whitespace. *)
Theorem strip_trims_both_ends (s : str) :
  (exists l r, blank l /\ blank r /\ s = l ++ strip s ++ r)
  /\ (forall c t, strip s = c :: t -> isspace c = false)
  /\ (forall t c, strip s = t ++ [c] -> isspace c = false).
Proof.
  split; [apply strip_split|]. split.
  - intros c t. apply strip_head.
  - intros t c. unfold strip. apply rstrip_last.
Qed.

Section Compare.

Variable H : AlgorithmId -> bytes -> bytes.
Variable entropy : nat -> byte.

Lemma run_compare (i : inputs) (kb : option bytes) :
  hmac_key_bytes i = inr kb ->
  h1 i <> [] -> h2 i <> [] ->
  run H entropy i BtnCompare
  = Invoke (inr (VBool (bool_decide (strip (h1 i) = strip (h2 i))))).
Proof.
  intros Hk Ha Hb. unfold run, handler.
  rewrite Hk, !truthy_true by assumption. simpl.
  rewrite compare_hashes_decide. reflexivity.
Qed.

(** X18: with both fields filled in, the compare block reports a match
    exactly when the two fields are one and the same string with
    whitespace around it; fields that differ anywhere else, be it in the
    case of a letter or in a blank inside, are reported as different. *)
Theorem match_iff_same_up_to_blanks (i : inputs) (kb : option bytes) :
  hmac_key_bytes i = inr kb ->
  h1 i <> [] ->
  h2 i <> [] ->
  (run H entropy i BtnCompare = Invoke (inr (VBool true))
   <-> exists l1 r1 l2 r2 c,
         blank l1 /\ blank r1 /\ blank l2 /\ blank r2
         /\ h1 i = l1 ++ c ++ r1 /\ h2 i = l2 ++ c ++ r2)
  /\ (run H entropy i BtnCompare = Invoke (inr (VBool false))
      <-> strip (h1 i) <> strip (h2 i)).
Proof.
  intros Hk Ha Hb. rewrite (run_compare i kb Hk Ha Hb). split; split.
  - intros [= Hd]. apply bool_decide_eq_true in Hd.
    destruct (strip_split (h1 i)) as (l1 & r1 & Hl1 & Hr1 & E1).
    destruct (strip_split (h2 i)) as (l2 & r2 & Hl2 & Hr2 & E2).
    exists l1, r1, l2, r2, (strip (h1 i)).
    repeat split; auto. rewrite Hd. exact E2.
  - intros (l1 & r1 & l2 & r2 & c & Hl1 & Hr1 & Hl2 & Hr2 & E1 & E2).
    rewrite E1, E2, !strip_surround by assumption.
    rewrite bool_decide_eq_true_2; reflexivity.
  - intros [= Hd]. apply bool_decide_eq_false in Hd. exact Hd.
  - intros Hne. rewrite bool_decide_eq_false_2; [reflexivity | exact Hne].
Qed.

(** X19: a field left empty gives the warning and no comparison; a field
    of whitespace only passes that test, is compared as the empty string,
    and so matches exactly the fields of whitespace only. *)
Theorem blank_field_compared_as_empty (i : inputs) (kb : option bytes) :
  hmac_key_bytes i = inr kb ->
  (h1 i = [] \/ h2 i = [] ->
     run H entropy i BtnCompare = Warn "Introduce ambos hashes.")
  /\ (h1 i <> [] -> h2 i <> [] -> blank (h1 i) ->
        handler i BtnCompare = Invoke (CallCompare [] (strip (h2 i)))
        /\ (run H entropy i BtnCompare = Invoke (inr (VBool true))
            <-> blank (h2 i))).
Proof.
  intros Hk. split.
  - intros Hempty. unfold run, handler. rewrite Hk.
    destruct Hempty as [-> | ->]; simpl; [reflexivity|].
    rewrite andb_false_r. reflexivity.
  - intros Ha Hb Hbl. apply strip_blank in Hbl. split.
    + unfold handler. rewrite Hk, !truthy_true by assumption.
      simpl. rewrite Hbl. reflexivity.
    + rewrite (run_compare i kb Hk Ha Hb), Hbl. rewrite <- strip_blank. split.
      * intros [= Hd]. apply bool_decide_eq_true in Hd.
        symmetry. exact Hd.
      * intros ->. reflexivity.
Qed.

End Compare.

Lemma match_iff_same_up_to_blanks_witness :
  run toy_digest counting (with_hashes (lit "ab12") (lit "AB12") fresh) BtnCompare
  = Invoke (inr (VBool false)).
Proof.
  apply (proj2 (match_iff_same_up_to_blanks toy_digest counting
                  (with_hashes (lit "ab12") (lit "AB12") fresh) None
                  eq_refl ltac:(discriminate) ltac:(discriminate))).
  vm_compute. discriminate.
Defined.

Lemma blank_field_compared_as_empty_witness :
  run toy_digest counting (with_hashes [32] [10; 9] fresh) BtnCompare
  = Invoke (inr (VBool true)).
Proof.
  apply (proj2 (proj2 (blank_field_compared_as_empty toy_digest counting
                         (with_hashes [32] [10; 9] fresh) None eq_refl)
                  ltac:(discriminate) ltac:(discriminate) eq_refl)).
  reflexivity.
Defined.

End TrimFacts.

(** ** Keys of letters and digits that are not base64 *)

Module TextKeyFacts.
Import Py HashUtils App Examples Page AlgorithmFacts KeyFacts Base64Facts
  KeyEdgeFacts.

Lemma a2b_alphabet_rejects (data : str) (q : nat) (l : N) (p : nat) :
  (forall c, In c data -> b64_value c <> None) ->
  (q < 4)%nat ->
  ((q + length data) mod 4 <> 0)%nat ->
  a2b_base64 data q l p = inl BinasciiError.
Proof.
  revert q l p. induction data as [|c r IH]; intros q l p Hall Hq Hm.
  - destruct q; [exfalso; apply Hm; reflexivity | reflexivity].
  - assert (Hr : forall c', In c' r -> b64_value c' <> None)
      by (intros; apply Hall; right; assumption).
    destruct (b64_value c) as [v|] eqn:Hv;
      [|exfalso; apply (Hall c); [left; reflexivity | exact Hv]].
    destruct (b64_value_ascii c v Hv) as [_ Hpad].
    cbn [a2b_base64]. rewrite Hpad, Hv.
    replace (q + length (c :: r))%nat with (S q + length r)%nat in Hm
      by (simpl; lia).
    destruct q as [|[|[|[|q]]]]; try lia.
    + apply IH; auto; lia.
    + rewrite IH; auto; lia.
    + rewrite IH; auto; lia.
    + rewrite IH; auto; try lia.
      intros Hz. apply Hm.
      change (4 + length r)%nat with (1 * 4 + length r)%nat.
      rewrite Nat.add_comm, Nat.Div0.mod_add. exact Hz.
Qed.

Lemma encode_utf8_ascii (v : str) :
  isascii v = true -> encode_utf8 v = inr (map byte_of_N v).
Proof.
  unfold isascii. induction v as [|c r IH]; simpl; [reflexivity|].
  intros Ha. apply andb_true_iff in Ha. destruct Ha as [Hc Hr].
  unfold utf8_char. rewrite Hc, (IH Hr). reflexivity.
Qed.

(** X20: a key string of letters, digits, '+' or '/' whose length is not a
    multiple of four is rejected by the base64 decoding and reaches the
    HMAC call as text, one byte for each character. *)
Theorem odd_length_key_is_text (i : inputs) (v : str) :
  key_supplied i v ->
  text_input i <> [] ->
  (forall c, In c v -> b64_value c <> None) ->
  (length v mod 4 <> 0)%nat ->
  b64decode v = inl BinasciiError
  /\ handler i BtnHmac
     = Invoke (CallHmac (text_input i) (map byte_of_N v) (alg i)).
Proof.
  intros Hs Ht Hall Hlen.
  pose proof (alphabet_ascii v Hall) as Ha.
  assert (Hd : b64decode v = inl BinasciiError).
  { unfold b64decode. rewrite Ha. apply a2b_alphabet_rejects; auto; lia. }
  split; [exact Hd|].
  apply (handler_hmac_key i v _ Hs Ht).
  unfold decode_key. rewrite Hd. apply encode_utf8_ascii, Ha.
Qed.

Lemma odd_length_key_is_text_witness :
  handler (with_text (lit "hi") (with_key_demo (lit "secret") fresh)) BtnHmac
  = Invoke (CallHmac (lit "hi")
              ["s"%byte; "e"%byte; "c"%byte; "r"%byte; "e"%byte; "t"%byte]
              (lit "sha256")).
Proof.
  refine (proj2 (odd_length_key_is_text
            (with_text (lit "hi") (with_key_demo (lit "secret") fresh))
            (lit "secret") _ _ _ _)).
  - right. repeat split. discriminate.
  - discriminate.
  - intros c Hin. simpl in Hin.
    repeat match goal with
           | H : _ \/ _ |- _ => destruct H as [<-|H]
           end; try discriminate; contradiction.
  - simpl. discriminate.
Defined.

End TextKeyFacts.
